(** * kaizenflow: the two-level memoizing cache and the command-line scripts

    A shallow embedding of [helpers/cache.py] (the [Cached] decorator over
    joblib), of the downloader scripts, of [publish_notebook.py] and of the
    DAG runners, with the properties the specification states about them. *)

From Stdlib Require Import Ascii.
From stdpp Require Import base option list strings pretty.
From stdpp Require Import gmap fin_maps fin_sets.

Set Default Proof Using "Type*".
Open Scope string_scope.
Open Scope Z_scope.

(** ** Python computations: state and exceptions *)

Inductive exn :=
  | IOError
  | AssertionError (msg : string)
  | ValueError (msg : string)
  | UnboundLocalError (name : string)
  | PicklingError
  | SystemExit (code : Z)
  | Exception (msg : string).

Inductive result (A : Type) :=
  | Ok (a : A)
  | Raise (e : exn).
Arguments Ok {A} a.
Arguments Raise {A} e.

(** A computation reads and writes the state and leaves a list of events,
    what it did to the outside, in order. The state and the events survive
    an exception, as they do in Python. *)
Definition M (S E A : Type) : Type := S → result A * S * list E.

Definition ret {S E A} (a : A) : M S E A := λ s, (Ok a, s, []).
Definition bind {S E A B} (c : M S E A) (k : A → M S E B) : M S E B :=
  λ s, match c s with
       | (Ok a, s', e1) =>
           let '(r, s'', e2) := k a s' in (r, s'', (e1 ++ e2)%list)
       | (Raise e, s', e1) => (Raise e, s', e1)
       end.
Definition raise {S E A} (e : exn) : M S E A := λ s, (Raise e, s, []).
Definition gets {S E A} (f : S → A) : M S E A := λ s, (Ok (f s), s, []).
Definition modify {S E} (f : S → S) : M S E unit := λ s, (Ok tt, f s, []).
Definition emit {S E} (e : E) : M S E unit := λ s, (Ok tt, s, [e]).
(** [catch c] is [c] under a [try:]: the exception becomes a value. *)
Definition catch {S E A} (c : M S E A) : M S E (result A) :=
  λ s, let '(r, s', e) := c s in (Ok r, s', e).

Declare Scope py_scope.
Delimit Scope py_scope with py.
Notation "x <- c ;; k" := (bind c (λ x, k))
  (at level 100, c at next level, right associativity) : py_scope.
Notation "c ;; k" := (bind c (λ _, k))
  (at level 100, right associativity) : py_scope.
Open Scope py_scope.

(** A result that needs no state. *)
Definition lift {S E A} (r : result A) : M S E A := λ s, (r, s, []).

(** [for x in l: body(x)]. *)
Fixpoint for_each {S E A} (l : list A) (body : A → M S E unit) : M S E unit :=
  match l with
  | [] => ret tt
  | x :: l => body x;; for_each l body
  end.

(** ** Python strings and paths *)

Definition startswith (s p : string) : bool := String.prefix p s.

Definition endswith (s p : string) : bool :=
  String.prefix (String.rev p) (String.rev s).

(** [os.path.join] of two components on a POSIX system. *)
Definition os_path_join (a b : string) : string :=
  if startswith b "/" then b
  else if bool_decide (a = "") || endswith a "/" then a +:+ b
  else a +:+ "/" +:+ b.

(** [old in s] for strings. *)
Fixpoint contains (s old : string) : bool :=
  String.prefix old s ||
  match s with
  | "" => false
  | String _ s' => contains s' old
  end.

(** [s.replace(old, new)] for single characters. *)
Fixpoint replace (s : string) (old new : Ascii.ascii) : string :=
  match s with
  | "" => ""
  | String c s' =>
      String (if decide (c = old) then new else c) (replace s' old new)
  end.

(** [s.split(sep)] for a single character: empty fields are kept. *)
Fixpoint split_on (s : string) (sep : Ascii.ascii) : list string :=
  match s with
  | "" => [""]
  | String c s' =>
      if decide (c = sep) then "" :: split_on s' sep
      else match split_on s' sep with
           | field :: fields => String c field :: fields
           | [] => [String c ""]
           end
  end.

(** [int(s)] on a token without blanks: an optional sign and decimal
    digits. *)
Fixpoint int_digits (s : string) (acc : Z) : option Z :=
  match s with
  | "" => Some acc
  | String c s' =>
      match Ascii.is_nat c with
      | Some d => int_digits s' (10 * acc + Z.of_nat d)
      | None => None
      end
  end.

Definition int (s : string) : option Z :=
  match s with
  | "" => None
  | String "-"%char "" | String "+"%char "" => None
  | String "-"%char s' => Z.opp <$> int_digits s' 0
  | String "+"%char s' => int_digits s' 0
  | _ => int_digits s 0
  end.

(** [joblib.hashing.hash] of the filtered call arguments. *)
Class Hashing (Args : Type) := hashing_hash : Args → string.

(** ** The interpreter state *)

(** A [joblib.Memory] object: its identity and the directory it stores in. *)
Record Memory := { memory_id : positive; location : string }.

Global Instance Memory_eq_dec : EqDecision Memory.
Proof. solve_decision. Defined.

(** The directory [<location>/<func_id>/] of a store backend: the file
    [func_code.py], kept as the pair that [extract_first_line] reads out of
    it (the source text and the line number of the header comment), and one
    pickled [output.pkl] per arguments digest. *)
Record FuncDir (Obj : Type) := {
  func_code_py : option (string * Z);
  items : gmap string Obj
}.
Arguments func_code_py {Obj} _.
Arguments items {Obj} _.

Definition empty_dir {Obj} : FuncDir Obj :=
  {| func_code_py := None; items := ∅ |}.

Section model.
Context {Args Obj : Type} `{!Hashing Args}.

(** A Python function object. [f_body] runs on the object heap and returns a
    reference; a function cannot return a reference to nothing. *)
Record Func := {
  f_obj : positive;
  f_func_id : string;
  f_named : bool;
  f_code : string;
  f_first_line : Z;
  f_code_hash : Z;
  f_body : Args → gmap positive Obj → result positive * gmap positive Obj;
  f_live : ∀ a h r h', f_body a h = (Ok r, h') → is_Some (h' !! r)
}.

(** The events of the cache. The [string] of a store event names the
    memoized function that did it, ["mem"] or ["disk"]. *)
Inductive Event :=
  | EvExec (f : positive) (a : Args)
  | EvContains (cache : string) (func_id args_id : string)
  | EvLoad (cache : string) (func_id args_id : string)
  | EvDump (cache : string) (func_id args_id : string)
  | EvReadCode (cache : string) (func_id : string)
  | EvWriteCode (cache : string) (func_id : string)
  | EvClear (cache : string) (func_id : string).

(** What a call can read and write: the module globals of
    [helpers/cache.py] and of joblib ([_FUNCTION_HASHES], keyed by the
    function object), the directories of the stores, the objects of the
    interpreter, and the two tracing attributes of the [Cached] object
    that is called. *)
Record World := {
  _USE_CACHING : bool;
  _DISK_CACHE : option Memory;
  _MEMORY_CACHE : option Memory;
  next_memory_id : positive;
  _FUNCTION_HASHES : gmap positive (positive * Z);
  fs : gmap string (gmap string (FuncDir Obj));
  heap : gmap positive Obj;
  _last_used_disk_cache : bool;
  _last_used_mem_cache : bool
}.

Definition set_USE_CACHING (v : bool) (w : World) : World :=
  {| _USE_CACHING := v; _DISK_CACHE := _DISK_CACHE w;
     _MEMORY_CACHE := _MEMORY_CACHE w; next_memory_id := next_memory_id w;
     _FUNCTION_HASHES := _FUNCTION_HASHES w; fs := fs w; heap := heap w;
     _last_used_disk_cache := _last_used_disk_cache w;
     _last_used_mem_cache := _last_used_mem_cache w |}.
Definition set_DISK_CACHE (v : option Memory) (w : World) : World :=
  {| _USE_CACHING := _USE_CACHING w; _DISK_CACHE := v;
     _MEMORY_CACHE := _MEMORY_CACHE w; next_memory_id := next_memory_id w;
     _FUNCTION_HASHES := _FUNCTION_HASHES w; fs := fs w; heap := heap w;
     _last_used_disk_cache := _last_used_disk_cache w;
     _last_used_mem_cache := _last_used_mem_cache w |}.
Definition set_MEMORY_CACHE (v : option Memory) (w : World) : World :=
  {| _USE_CACHING := _USE_CACHING w; _DISK_CACHE := _DISK_CACHE w;
     _MEMORY_CACHE := v; next_memory_id := next_memory_id w;
     _FUNCTION_HASHES := _FUNCTION_HASHES w; fs := fs w; heap := heap w;
     _last_used_disk_cache := _last_used_disk_cache w;
     _last_used_mem_cache := _last_used_mem_cache w |}.
Definition set_next_memory_id (v : positive) (w : World) : World :=
  {| _USE_CACHING := _USE_CACHING w; _DISK_CACHE := _DISK_CACHE w;
     _MEMORY_CACHE := _MEMORY_CACHE w; next_memory_id := v;
     _FUNCTION_HASHES := _FUNCTION_HASHES w; fs := fs w; heap := heap w;
     _last_used_disk_cache := _last_used_disk_cache w;
     _last_used_mem_cache := _last_used_mem_cache w |}.
Definition set_FUNCTION_HASHES (v : gmap positive (positive * Z)) (w : World)
    : World :=
  {| _USE_CACHING := _USE_CACHING w; _DISK_CACHE := _DISK_CACHE w;
     _MEMORY_CACHE := _MEMORY_CACHE w; next_memory_id := next_memory_id w;
     _FUNCTION_HASHES := v; fs := fs w; heap := heap w;
     _last_used_disk_cache := _last_used_disk_cache w;
     _last_used_mem_cache := _last_used_mem_cache w |}.
Definition set_fs (v : gmap string (gmap string (FuncDir Obj))) (w : World)
    : World :=
  {| _USE_CACHING := _USE_CACHING w; _DISK_CACHE := _DISK_CACHE w;
     _MEMORY_CACHE := _MEMORY_CACHE w; next_memory_id := next_memory_id w;
     _FUNCTION_HASHES := _FUNCTION_HASHES w; fs := v; heap := heap w;
     _last_used_disk_cache := _last_used_disk_cache w;
     _last_used_mem_cache := _last_used_mem_cache w |}.
Definition set_heap (v : gmap positive Obj) (w : World) : World :=
  {| _USE_CACHING := _USE_CACHING w; _DISK_CACHE := _DISK_CACHE w;
     _MEMORY_CACHE := _MEMORY_CACHE w; next_memory_id := next_memory_id w;
     _FUNCTION_HASHES := _FUNCTION_HASHES w; fs := fs w; heap := v;
     _last_used_disk_cache := _last_used_disk_cache w;
     _last_used_mem_cache := _last_used_mem_cache w |}.
Definition set_last_used_disk_cache (v : bool) (w : World) : World :=
  {| _USE_CACHING := _USE_CACHING w; _DISK_CACHE := _DISK_CACHE w;
     _MEMORY_CACHE := _MEMORY_CACHE w; next_memory_id := next_memory_id w;
     _FUNCTION_HASHES := _FUNCTION_HASHES w; fs := fs w; heap := heap w;
     _last_used_disk_cache := v;
     _last_used_mem_cache := _last_used_mem_cache w |}.
Definition set_last_used_mem_cache (v : bool) (w : World) : World :=
  {| _USE_CACHING := _USE_CACHING w; _DISK_CACHE := _DISK_CACHE w;
     _MEMORY_CACHE := _MEMORY_CACHE w; next_memory_id := next_memory_id w;
     _FUNCTION_HASHES := _FUNCTION_HASHES w; fs := fs w; heap := heap w;
     _last_used_disk_cache := _last_used_disk_cache w;
     _last_used_mem_cache := v |}.

Abbreviation Py := (M World Event).

(** ** The object heap *)

(** A new object holding [o]; pickling reads an object's content, and
    unpickling and [copy.deepcopy] both build a new object. *)
Definition alloc (o : Obj) : Py positive :=
  h <- gets heap;;
  let r := fresh (dom h) in
  modify (set_heap (<[r := o]> h));;
  ret r.

Definition deepcopy (r : positive) : Py positive :=
  h <- gets heap;;
  match h !! r with
  | Some o => alloc o
  | None => raise PicklingError
  end.

(** Calling a Python function: its body runs on the heap. *)
Definition call_func (f : Func) (a : Args) : Py positive :=
  emit (EvExec (f_obj f) a);;
  h <- gets heap;;
  let '(r, h') := f_body f a h in
  modify (set_heap h');;
  match r with
  | Ok v => ret v
  | Raise e => raise e
  end.

(** ** joblib: the store backend and [MemorizedFunc]

    The part of joblib (before 1.3) that [helpers/cache.py] calls. A store
    backend is a directory; reading a directory that does not exist finds
    nothing. Objects are taken to be picklable and the file system to work. *)

Record MemorizedFunc := {
  mf_name : string;
  store_location : string;
  func : Func
}.

Definition lookup_dir (loc func_id : string) (w : World)
    : option (FuncDir Obj) :=
  (fs w !!! loc) !! func_id.

Definition update_dir (loc func_id : string)
    (g : FuncDir Obj → FuncDir Obj) (w : World) : World :=
  let store := fs w !!! loc in
  set_fs (<[loc := <[func_id := g (default empty_dir (store !! func_id))]>
                     store]> (fs w)) w.

Definition remove_dir (loc func_id : string) (w : World) : World :=
  set_fs (<[loc := delete func_id (fs w !!! loc)]> (fs w)) w.

Definition contains_item (mf : MemorizedFunc) (func_id args_id : string)
    : Py bool :=
  emit (EvContains (mf_name mf) func_id args_id);;
  d <- gets (lookup_dir (store_location mf) func_id);;
  ret (match d with
       | Some d => bool_decide (is_Some (items d !! args_id))
       | None => false
       end).

Definition load_item (mf : MemorizedFunc) (func_id args_id : string)
    : Py positive :=
  emit (EvLoad (mf_name mf) func_id args_id);;
  d <- gets (lookup_dir (store_location mf) func_id);;
  match d ≫= λ d, items d !! args_id with
  | Some o => alloc o
  | None => raise IOError
  end.

(** [dump_item] swallows whatever goes wrong while it writes. *)
Definition dump_item (mf : MemorizedFunc) (func_id args_id : string)
    (obj : positive) : Py unit :=
  emit (EvDump (mf_name mf) func_id args_id);;
  h <- gets heap;;
  match h !! obj with
  | Some o =>
      modify (update_dir (store_location mf) func_id (λ d,
        {| func_code_py := func_code_py d;
           items := <[args_id := o]> (items d) |}))
  | None => ret tt
  end.

Definition get_cached_func_code (mf : MemorizedFunc) (func_id : string)
    : Py (string * Z) :=
  emit (EvReadCode (mf_name mf) func_id);;
  d <- gets (lookup_dir (store_location mf) func_id);;
  match d ≫= func_code_py with
  | Some c => ret c
  | None => raise IOError
  end.

Definition store_cached_func_code (mf : MemorizedFunc) (func_id : string)
    (c : string * Z) : Py unit :=
  emit (EvWriteCode (mf_name mf) func_id);;
  modify (update_dir (store_location mf) func_id (λ d,
    {| func_code_py := Some c; items := items d |})).

Definition clear_path (mf : MemorizedFunc) (func_id : string) : Py unit :=
  emit (EvClear (mf_name mf) func_id);;
  modify (remove_dir (store_location mf) func_id).

(** [get_func_code(func)]: the source and the line it starts at. *)
Definition get_func_code (f : Func) : string * Z :=
  (f_code f, f_first_line f).

Definition extract_first_line (c : string * Z) : string * Z := c.

Definition _get_output_identifiers (mf : MemorizedFunc) (a : Args)
    : string * string :=
  (f_func_id (func mf), hashing_hash a).

(** [(id(func), hash(func), hash(func.__code__))]; the hash of a function
    object is taken from its identity. *)
Definition _hash_func (mf : MemorizedFunc) : positive * Z :=
  (f_obj (func mf), f_code_hash (func mf)).

Definition _write_func_code (mf : MemorizedFunc) (func_code : string)
    (first_line : Z) : Py unit :=
  let func_id := f_func_id (func mf) in
  store_cached_func_code mf func_id (func_code, first_line);;
  if f_named (func mf) then
    hs <- gets _FUNCTION_HASHES;;
    modify (set_FUNCTION_HASHES (<[f_obj (func mf) := _hash_func mf]> hs))
  else ret tt.

Definition mf_clear (mf : MemorizedFunc) : Py unit :=
  let func_id := f_func_id (func mf) in
  clear_path mf func_id;;
  let '(func_code, first_line) := get_func_code (func mf) in
  _write_func_code mf func_code first_line.

Definition in_FUNCTION_HASHES (mf : MemorizedFunc) (w : World) : bool :=
  match _FUNCTION_HASHES w !! f_obj (func mf) with
  | Some h => bool_decide (_hash_func mf = h)
  | None => false
  end.

Definition _check_previous_func_code (mf : MemorizedFunc) : Py bool :=
  known <- gets (in_FUNCTION_HASHES mf);;
  if known : bool then ret true else
  let '(func_code, first_line) := get_func_code (func mf) in
  let func_id := f_func_id (func mf) in
  old <- catch (get_cached_func_code mf func_id);;
  match old with
  | Raise _ => _write_func_code mf func_code first_line;; ret false
  | Ok old =>
      let '(old_func_code, old_first_line) := extract_first_line old in
      if decide (old_func_code = func_code) then ret true
      else mf_clear mf;; ret false
  end.

(** [MemorizedFunc.call]: run the function and persist what it returns. *)
Definition mf_call (mf : MemorizedFunc) (a : Args) : Py positive :=
  let '(func_id, args_id) := _get_output_identifiers mf a in
  output <- call_func (func mf) a;;
  dump_item mf func_id args_id output;;
  ret output.

Definition _cached_call (mf : MemorizedFunc) (a : Args) : Py positive :=
  let '(func_id, args_id) := _get_output_identifiers mf a in
  same <- _check_previous_func_code mf;;
  present <- (if same : bool then contains_item mf func_id args_id
              else ret false);;
  if present : bool then
    out <- catch (load_item mf func_id args_id);;
    match out with
    | Ok out => ret out
    | Raise _ => mf_call mf a
    end
  else mf_call mf a.

Definition mf__call__ (mf : MemorizedFunc) (a : Args) : Py positive :=
  _cached_call mf a.

(** ** [helpers/cache.py] *)

(** [git.get_client_root(super_module=True)] and [os.path.abspath] come from
    outside this file. *)
Context (git_client_root : string) (abspath : string → string).

Definition dassert_in (x : string) (l : list string) : Py unit :=
  if decide (x ∈ l) then ret tt
  else raise (AssertionError ("'" +:+ x +:+ "' not in set")).

Definition _MEMORY_TMPFS_PATH : string := "/mnt/tmpfs".

Definition _check_valid_cache_type (cache_type : string) : Py unit :=
  dassert_in cache_type ["mem"; "disk"].

Definition set_caching (val : bool) : Py unit :=
  modify (set_USE_CACHING val).

Definition is_caching_enabled : Py bool :=
  gets _USE_CACHING.

(** The last statement of [get_cache_name] appends [".cache"] to its local
    [cache_type] and does not reach the returned name. *)
Definition get_cache_name (cache_type : string) (tag : option string)
    : Py string :=
  _check_valid_cache_type cache_type;;
  let cache_name := "tmp.joblib" in
  let cache_name := cache_name +:+ "." +:+ cache_type in
  let cache_name :=
    match tag with
    | Some tag => cache_name +:+ "." +:+ tag
    | None => cache_name
    end in
  ret cache_name.

Definition get_cache_path (cache_type : string) (tag : option string)
    : Py string :=
  _check_valid_cache_type cache_type;;
  cache_name <- get_cache_name cache_type tag;;
  let root_path :=
    if decide (cache_type = "mem") then _MEMORY_TMPFS_PATH
    else git_client_root in
  let file_name := os_path_join root_path cache_name in
  let file_name := abspath file_name in
  ret file_name.

Definition get_global_cache (cache_type : string) : Py (option Memory) :=
  _check_valid_cache_type cache_type;;
  if decide (cache_type = "mem") then gets _MEMORY_CACHE
  else gets _DISK_CACHE.

Definition set_global_cache (cache_type : string) (cache : option Memory)
    : Py unit :=
  _check_valid_cache_type cache_type;;
  if decide (cache_type = "mem") then modify (set_MEMORY_CACHE cache)
  else modify (set_DISK_CACHE cache).

(** [joblib.Memory(file_name, verbose=0, compress=1)]: a new object. *)
Definition new_Memory (file_name : string) : Py Memory :=
  n <- gets next_memory_id;;
  modify (set_next_memory_id (Pos.succ n));;
  ret {| memory_id := n; location := file_name |}.

Definition get_cache (cache_type : string) (tag : option string)
    : Py Memory :=
  _check_valid_cache_type cache_type;;
  global_cache <- get_global_cache cache_type;;
  match tag with
  | None =>
      match global_cache with
      | Some cache => ret cache
      | None =>
          file_name <- get_cache_path cache_type tag;;
          cache <- new_Memory file_name;;
          set_global_cache cache_type (Some cache);;
          ret cache
      end
  | Some _ =>
      file_name <- get_cache_path cache_type tag;;
      cache <- new_Memory file_name;;
      ret cache
  end.

(** A [Cached] object. The two flags that trace the last call live in the
    state; [_disk_cached_func] and [_memory_cached_func] are what
    [Memory.cache] builds from the fields below. *)
Record Cached := {
  _func : Func;
  _use_mem_cache : bool;
  _use_disk_cache : bool;
  _set_verbose_mode : bool;
  _tag : option string;
  _disk_cache : Memory;
  _memory_cache : Memory
}.

Definition Memory_cache (name : string) (m : Memory) (f : Func)
    : MemorizedFunc :=
  {| mf_name := name; store_location := location m; func := f |}.

Definition _disk_cached_func (self : Cached) : MemorizedFunc :=
  Memory_cache "disk" (_disk_cache self) (_func self).

Definition _memory_cached_func (self : Cached) : MemorizedFunc :=
  Memory_cache "mem" (_memory_cache self) (_func self).

Definition _reset_cache_tracing (use_mem_cache use_disk_cache : bool)
    : Py unit :=
  modify (set_last_used_disk_cache use_disk_cache);;
  modify (set_last_used_mem_cache use_mem_cache).

Definition Cached__init__ (func : Func)
    (use_mem_cache use_disk_cache set_verbose_mode : bool)
    (tag : option string) : Py Cached :=
  _reset_cache_tracing use_mem_cache use_disk_cache;;
  disk_cache <- get_cache "disk" tag;;
  memory_cache <- get_cache "mem" tag;;
  ret {| _func := func; _use_mem_cache := use_mem_cache;
         _use_disk_cache := use_disk_cache;
         _set_verbose_mode := set_verbose_mode; _tag := tag;
         _disk_cache := disk_cache; _memory_cache := memory_cache |}.

Definition get_last_cache_accessed : Py string :=
  m <- gets _last_used_mem_cache;;
  d <- gets _last_used_disk_cache;;
  ret (if m : bool then "mem" else if d : bool then "disk" else "no_cache").

Definition _get_cache (self : Cached) (cache_type : string)
    : Py MemorizedFunc :=
  if decide (cache_type = "mem") then ret (_memory_cached_func self)
  else if decide (cache_type = "disk") then ret (_disk_cached_func self)
  else raise (AssertionError ("Unknown cache type: " +:+ cache_type)).

Definition _get_identifiers (self : Cached) (cache_type : string) (args : Args)
    : Py (string * string) :=
  cache <- _get_cache self cache_type;;
  ret (_get_output_identifiers cache args).

Definition _has_cached_version (self : Cached)
    (cache_type func_id args_id : string) : Py bool :=
  cache <- _get_cache self cache_type;;
  has_cached_version <- contains_item cache func_id args_id;;
  if has_cached_version : bool then
    known <- gets (in_FUNCTION_HASHES cache);;
    if known : bool then ret true else
    let '(func_code, _) := get_func_code (_func self) in
    old_func_code_cache <- get_cached_func_code cache func_id;;
    let '(old_func_code, _) := extract_first_line old_func_code_cache in
    if decide (func_code = old_func_code) then ret true
    else ret false
  else ret false.

Definition _store_cached_version (self : Cached)
    (cache_type func_id args_id : string) (obj : positive) : Py unit :=
  cache <- _get_cache self cache_type;;
  let '(func_code, first_line) := get_func_code (func cache) in
  _write_func_code cache func_code first_line;;
  dump_item cache func_id args_id obj.

Definition _execute_func_from_disk_cache (self : Cached) (args : Args)
    : Py positive :=
  ids <- _get_identifiers self "disk" args;;
  let '(func_id, args_id) := ids in
  hit <- _has_cached_version self "disk" func_id args_id;;
  (if hit : bool then ret tt
   else modify (set_last_used_disk_cache false));;
  mf__call__ (_disk_cached_func self) args.

Definition _execute_func_from_mem_cache (self : Cached) (args : Args)
    : Py positive :=
  ids <- _get_identifiers self "mem" args;;
  let '(func_id, args_id) := ids in
  hit <- _has_cached_version self "mem" func_id args_id;;
  if hit : bool then mf__call__ (_memory_cached_func self) args
  else
    modify (set_last_used_mem_cache false);;
    obj <- (if _use_disk_cache self
            then _execute_func_from_disk_cache self args
            else mf__call__ (_memory_cached_func self) args);;
    _store_cached_version self "mem" func_id args_id obj;;
    ret obj.

Definition _execute_func (self : Cached) (args : Args) : Py positive :=
  if _use_mem_cache self then _execute_func_from_mem_cache self args
  else if _use_disk_cache self then _execute_func_from_disk_cache self args
  else call_func (_func self) args.

(** [Cached.__call__]. Logging and the timer of the verbose mode read
    [get_last_cache_accessed] and change nothing. *)
Definition __call__ (self : Cached) (args : Args) : Py positive :=
  enabled <- is_caching_enabled;;
  if negb enabled then
    modify (set_last_used_disk_cache false);;
    modify (set_last_used_mem_cache false);;
    call_func (_func self) args
  else
    _reset_cache_tracing (_use_mem_cache self) (_use_disk_cache self);;
    obj <- _execute_func self args;;
    deepcopy obj.

(** [Cached.clear_cache]: [MemorizedFunc.clear] on the memoized function of
    one level, or of the disk level and then of the memory level. *)
Definition clear_cache (self : Cached) (cache_type : option string)
    : Py unit :=
  match cache_type with
  | None =>
      disk_cache <- _get_cache self "disk";;
      mf_clear disk_cache;;
      mem_cache <- _get_cache self "mem";;
      mf_clear mem_cache
  | Some cache_type =>
      cache <- _get_cache self cache_type;;
      mf_clear cache
  end.

(** ** What the statements below are written in *)

Implicit Types (w : World) (mf : MemorizedFunc) (self : Cached).

Definition has_item mf (func_id args_id : string) w : bool :=
  match lookup_dir (store_location mf) func_id w with
  | Some d => bool_decide (is_Some (items d !! args_id))
  | None => false
  end.
Definition cached_value mf (func_id args_id : string) w : option Obj :=
  lookup_dir (store_location mf) func_id w ≫= λ d, items d !! args_id.
Definition stored_code mf (func_id : string) w : option (string * Z) :=
  lookup_dir (store_location mf) func_id w ≫= func_code_py.
Definition entry_state mf (func_id args_id : string) w : result bool :=
  if has_item mf func_id args_id w then
    if in_FUNCTION_HASHES mf w then Ok true
    else match stored_code mf func_id w with
         | Some c => Ok (bool_decide (f_code (func mf) = c.1))
         | None => Raise IOError
         end
  else Ok false.
Definition lookup_events mf (func_id args_id : string) w : list Event :=
  EvContains (mf_name mf) func_id args_id ::
  (if has_item mf func_id args_id w && negb (in_FUNCTION_HASHES mf w)
   then [EvReadCode (mf_name mf) func_id] else []).

Definition executed (evs : list Event) : Prop :=
  ∃ f a, EvExec f a ∈ evs.
Definition loaded_from (c : string) (evs : list Event) : Prop :=
  ∃ fid aid, EvLoad c fid aid ∈ evs.
Definition is_exec (e : Event) : bool :=
  match e with EvExec _ _ => true | _ => false end.
Definition event_cache (e : Event) : option string :=
  match e with
  | EvExec _ _ => None
  | EvContains c _ _ | EvLoad c _ _ | EvDump c _ _ => Some c
  | EvReadCode c _ | EvWriteCode c _ | EvClear c _ => Some c
  end.

Definition hit_events mf (a : Args) w : list Event :=
  (if in_FUNCTION_HASHES mf w then []
   else [EvReadCode (mf_name mf) (f_func_id (func mf))]) ++
  [EvContains (mf_name mf) (f_func_id (func mf)) (hashing_hash a);
   EvLoad (mf_name mf) (f_func_id (func mf)) (hashing_hash a)].

Definition same_settings w w' : Prop :=
  _USE_CACHING w' = _USE_CACHING w ∧
  _DISK_CACHE w' = _DISK_CACHE w ∧
  _MEMORY_CACHE w' = _MEMORY_CACHE w ∧
  next_memory_id w' = next_memory_id w ∧
  _last_used_disk_cache w' = _last_used_disk_cache w ∧
  _last_used_mem_cache w' = _last_used_mem_cache w.

Definition code_ok mf w : Prop :=
  in_FUNCTION_HASHES mf w = true ∨
  ∃ c, stored_code mf (f_func_id (func mf)) w = Some c ∧
       c.1 = f_code (func mf).

Definition quiet (name : string) (evs : list Event) : Prop :=
  Forall (λ e, match e with
               | EvLoad _ _ _ | EvExec _ _ | EvDump _ _ _ => False
               | _ => event_cache e = Some name
               end) evs.

Definition valid_with mf (a : Args) w (r : positive) : Prop :=
  entry_state mf (f_func_id (func mf)) (hashing_hash a) w = Ok true ∧
  ∃ o, cached_value mf (f_func_id (func mf)) (hashing_hash a) w = Some o ∧
       heap w !! r = Some o.

Inductive disk_outcome (self : Cached) (a : Args) (w : World)
    : result positive → World → list Event → Prop :=
  | disk_hit o :
      entry_state (_disk_cached_func self) (f_func_id (_func self))
        (hashing_hash a) w = Ok true →
      cached_value (_disk_cached_func self) (f_func_id (_func self))
        (hashing_hash a) w = Some o →
      disk_outcome self a w (Ok (fresh (dom (heap w))))
        (set_heap (<[fresh (dom (heap w)) := o]> (heap w)) w)
        (lookup_events (_disk_cached_func self) (f_func_id (_func self))
           (hashing_hash a) w ++ hit_events (_disk_cached_func self) a w)
  | disk_error e :
      entry_state (_disk_cached_func self) (f_func_id (_func self))
        (hashing_hash a) w = Raise e →
      disk_outcome self a w (Raise e) w
        (lookup_events (_disk_cached_func self) (f_func_id (_func self))
           (hashing_hash a) w)
  | disk_miss_ok pre r w' :
      entry_state (_disk_cached_func self) (f_func_id (_func self))
        (hashing_hash a) w = Ok false →
      quiet "disk" pre →
      EvContains "disk" (f_func_id (_func self)) (hashing_hash a) ∈ pre →
      same_settings (set_last_used_disk_cache false w) w' →
      valid_with (_disk_cached_func self) a w' r →
      disk_outcome self a w (Ok r) w'
        (pre ++ [EvExec (f_obj (_func self)) a;
                 EvDump "disk" (f_func_id (_func self)) (hashing_hash a)])
  | disk_miss_raise pre e w' :
      entry_state (_disk_cached_func self) (f_func_id (_func self))
        (hashing_hash a) w = Ok false →
      quiet "disk" pre →
      EvContains "disk" (f_func_id (_func self)) (hashing_hash a) ∈ pre →
      same_settings (set_last_used_disk_cache false w) w' →
      disk_outcome self a w (Raise e) w'
        (pre ++ [EvExec (f_obj (_func self)) a]).

Inductive mem_outcome (self : Cached) (a : Args) (w : World)
    : result positive → World → list Event → Prop :=
  | mem_hit o :
      entry_state (_memory_cached_func self) (f_func_id (_func self))
        (hashing_hash a) w = Ok true →
      cached_value (_memory_cached_func self) (f_func_id (_func self))
        (hashing_hash a) w = Some o →
      mem_outcome self a w (Ok (fresh (dom (heap w))))
        (set_heap (<[fresh (dom (heap w)) := o]> (heap w)) w)
        (lookup_events (_memory_cached_func self) (f_func_id (_func self))
           (hashing_hash a) w ++ hit_events (_memory_cached_func self) a w)
  | mem_error e :
      entry_state (_memory_cached_func self) (f_func_id (_func self))
        (hashing_hash a) w = Raise e →
      mem_outcome self a w (Raise e) w
        (lookup_events (_memory_cached_func self) (f_func_id (_func self))
           (hashing_hash a) w)
  | mem_miss_disk_ok obj w1 evs_d w' :
      entry_state (_memory_cached_func self) (f_func_id (_func self))
        (hashing_hash a) w = Ok false →
      _use_disk_cache self = true →
      disk_outcome self a (set_last_used_mem_cache false w) (Ok obj) w1
        evs_d →
      same_settings w1 w' → heap w' = heap w1 →
      valid_with (_memory_cached_func self) a w' obj →
      mem_outcome self a w (Ok obj) w'
        (lookup_events (_memory_cached_func self) (f_func_id (_func self))
           (hashing_hash a) w ++ evs_d ++
         [EvWriteCode "mem" (f_func_id (_func self));
          EvDump "mem" (f_func_id (_func self)) (hashing_hash a)])
  | mem_miss_disk_raise e w1 evs_d :
      entry_state (_memory_cached_func self) (f_func_id (_func self))
        (hashing_hash a) w = Ok false →
      _use_disk_cache self = true →
      disk_outcome self a (set_last_used_mem_cache false w) (Raise e) w1
        evs_d →
      mem_outcome self a w (Raise e) w1
        (lookup_events (_memory_cached_func self) (f_func_id (_func self))
           (hashing_hash a) w ++ evs_d)
  | mem_miss_ok pre obj w' :
      entry_state (_memory_cached_func self) (f_func_id (_func self))
        (hashing_hash a) w = Ok false →
      _use_disk_cache self = false →
      quiet "mem" pre →
      same_settings (set_last_used_mem_cache false w) w' →
      valid_with (_memory_cached_func self) a w' obj →
      mem_outcome self a w (Ok obj) w'
        (pre ++ [EvExec (f_obj (_func self)) a;
                 EvDump "mem" (f_func_id (_func self)) (hashing_hash a);
                 EvWriteCode "mem" (f_func_id (_func self));
                 EvDump "mem" (f_func_id (_func self)) (hashing_hash a)])
  | mem_miss_raise pre e w' :
      entry_state (_memory_cached_func self) (f_func_id (_func self))
        (hashing_hash a) w = Ok false →
      _use_disk_cache self = false →
      quiet "mem" pre →
      same_settings (set_last_used_mem_cache false w) w' →
      mem_outcome self a w (Raise e) w'
        (pre ++ [EvExec (f_obj (_func self)) a]).

Definition touches (c : string) (evs : list Event) : Prop :=
  ∃ e, e ∈ evs ∧ event_cache e = Some c.

Definition is_load (c : string) (e : Event) : bool :=
  match e with EvLoad c' _ _ => bool_decide (c' = c) | _ => false end.

Definition reset_tracing self w : World :=
  set_last_used_mem_cache (_use_mem_cache self)
    (set_last_used_disk_cache (_use_disk_cache self) w).

(** Where the value of a call came from, read off its events. *)
Definition served_from_mem self (a : Args) (evs : list Event) : Prop :=
  EvLoad "mem" (f_func_id (_func self)) (hashing_hash a) ∈ evs ∧
  ¬ executed evs ∧ ¬ loaded_from "disk" evs.
Definition served_from_disk self (a : Args) (evs : list Event) : Prop :=
  EvLoad "disk" (f_func_id (_func self)) (hashing_hash a) ∈ evs ∧
  ¬ executed evs ∧ ¬ loaded_from "mem" evs.
Definition served_by_func self (a : Args) (evs : list Event) : Prop :=
  EvExec (f_obj (_func self)) a ∈ evs ∧
  ¬ loaded_from "mem" evs ∧ ¬ loaded_from "disk" evs.

Definition exec_count (evs : list Event) : nat :=
  length (filter (λ e, is_exec e = true) evs).

Definition global_cache (cache_type : string) w : option Memory :=
  if decide (cache_type = "mem") then _MEMORY_CACHE w else _DISK_CACHE w.

(** A run of [get_cache] calls, one after the other. *)
Fixpoint get_caches (calls : list (string * option string)) w : World :=
  match calls with
  | [] => w
  | (cache_type, tag) :: calls =>
      get_caches calls
        (get_cache cache_type tag w).1.2
  end.

(** An entry of the memory level for the digest [aid], with its value and
    a source that is the current one. *)
Definition kept self (aid : string) (o : Obj) w : Prop :=
  ∃ d,
    lookup_dir (location (_memory_cache self)) (f_func_id (_func self)) w =
      Some d ∧
    items d !! aid = Some o ∧
    (in_FUNCTION_HASHES (_memory_cached_func self) w = true ∨
     ∃ c, func_code_py d = Some c ∧ c.1 = f_code (_func self)).

End model.

(** ** [im/ccxt/data/extract/download_historical.py] *)

Module download_historical.

(** [im.ccxt.data.extract.exchange_class.CcxtExchange], as the script uses
    it: the pairs the exchange lists and its downloader, which may raise. *)
Record CcxtExchange (Timestamp DataFrame : Type) := {
  currency_pairs : list string;
  download_ohlcv_data :
    string → Timestamp → Timestamp → option Z → result DataFrame
}.
Arguments currency_pairs {Timestamp DataFrame} _.
Arguments download_ohlcv_data {Timestamp DataFrame} _.

(** The parsed command line. *)
Record Namespace := {
  dst_dir : string;
  api_keys : string;
  exchange_ids : string;
  args_currency_pairs : string;
  start_datetime : string;
  end_datetime : option string;
  step : option Z;
  sleep_time : Z;
  incremental : bool
}.

Section script.
Context {Timestamp DataFrame : Type}.
(** [CcxtExchange(exchange_id, api_keys_path=...)], [pd.Timestamp(s)] and
    [pd.Timestamp.now()]. *)
Context (new_CcxtExchange :
           string → string → result (CcxtExchange Timestamp DataFrame))
        (pd_Timestamp : string → result Timestamp)
        (pd_Timestamp_now : Timestamp).

Inductive Effect :=
  | create_dir (dir : string) (incr : bool)
  | connect (exchange_id : string)
  | download (exchange_id curr_symbol : string)
      (start_ end_ : Timestamp) (step_ : option Z)
  | sleep (secs : Z)
  | to_csv (full_path : string) (pair_data : DataFrame).

Abbreviation Run := (M unit Effect).

Definition _ALL_EXCHANGE_IDS : list string := ["binance"; "kucoin"].

(** Messages to the log are left out. *)
Definition _main (args : Namespace) : Run unit :=
  emit (create_dir (dst_dir args) (incremental args));;
  start_datetime <- lift (pd_Timestamp (start_datetime args));;
  end_datetime <-
    match end_datetime args with
    | None | Some "" => ret pd_Timestamp_now
    | Some s => lift (pd_Timestamp s)
    end;;
  let exchange_ids :=
    if decide (exchange_ids args = "all") then _ALL_EXCHANGE_IDS
    else String.words (exchange_ids args) in
  for_each exchange_ids (λ exchange_id,
    emit (connect exchange_id);;
    exchange <- lift (new_CcxtExchange exchange_id (api_keys args));;
    let present_pairs :=
      if decide (args_currency_pairs args = "all")
      then currency_pairs exchange
      else
        let currency_pairs_ := String.words (args_currency_pairs args) in
        filter (λ curr, curr ∈ currency_pairs exchange) currency_pairs_ in
    for_each present_pairs (λ pair,
      emit (download exchange_id pair start_datetime end_datetime
              (step args));;
      pair_data <- lift (download_ohlcv_data exchange pair start_datetime
                           end_datetime (step args));;
      emit (sleep (sleep_time args));;
      let file_name :=
        exchange_id +:+ "_" +:+ replace pair "/" "_" +:+ ".csv.gz" in
      let full_path := os_path_join (dst_dir args) file_name in
      emit (to_csv full_path pair_data))).

(** The requests of a run, in order. *)
Definition requests (evs : list Effect) : list (string * string) :=
  omap (λ e, match e with
             | download exchange_id curr_symbol _ _ _ =>
                 Some (exchange_id, curr_symbol)
             | _ => None
             end) evs.

Definition files_written (evs : list Effect) : list string :=
  omap (λ e, match e with
             | to_csv full_path _ => Some full_path
             | _ => None
             end) evs.

(** The exchanges and pairs the two loops go through. *)
Definition the_exchange_ids (args : Namespace) : list string :=
  if decide (exchange_ids args = "all") then _ALL_EXCHANGE_IDS
  else String.words (exchange_ids args).

Definition the_pairs (args : Namespace) (exchange_id : string) : list string :=
  match new_CcxtExchange exchange_id (api_keys args) with
  | Ok exchange =>
      if decide (args_currency_pairs args = "all")
      then currency_pairs exchange
      else filter (λ curr, curr ∈ currency_pairs exchange)
             (String.words (args_currency_pairs args))
  | Raise _ => []
  end.

Definition planned (args : Namespace) : list (string * string) :=
  exchange_id ← the_exchange_ids args;
  pair ← the_pairs args exchange_id;
  [(exchange_id, pair)].

Definition file_of (args : Namespace) (request : string * string) : string :=
  os_path_join (dst_dir args)
    (request.1 +:+ "_" +:+ replace request.2 "/" "_" +:+ ".csv.gz").

(** What the body of the inner loop does, without the data it moves. *)
Inductive Step :=
  | requested (exchange_id curr_symbol : string)
  | slept (secs : Z)
  | saved (full_path : string).

Definition steps (evs : list Effect) : list Step :=
  omap (λ e, match e with
             | download exchange_id curr_symbol _ _ _ =>
                 Some (requested exchange_id curr_symbol)
             | sleep secs => Some (slept secs)
             | to_csv full_path _ => Some (saved full_path)
             | _ => None
             end) evs.

(** The end of the interval: [--end_datetime], or now when it is absent or
    empty. *)
Definition the_end_datetime (args : Namespace) : result Timestamp :=
  match end_datetime args with
  | None | Some "" => Ok pd_Timestamp_now
  | Some s => pd_Timestamp s
  end.

End script.
End download_historical.

(** ** [vendors2/kibot/metadata/extract/download_adjustments.py] *)

Module download_adjustments.

(** A [requests.Response], as far as the script reads it. *)
Record Response := {
  text : string;
  content : string
}.

Record Namespace := {
  username : string;
  password : string;
  start_date : string;
  tmp_dir : string;
  no_incremental : bool
}.

Inductive Effect :=
  | create_dir (dir : string) (incr : bool)
  | requests_get (url : string) (params : list (string * string))
  | to_file (file_name lines : string)
  | system (cmd : string).

Abbreviation Run := (M unit Effect).

Section script.
(** [config.API_ENDPOINT] and [config.S3_PREFIX] of
    [vendors2.kibot.data.config]; the server behind [requests.get], which
    may fail to answer; [hs3.check_valid_s3_path]; the return code of a
    shell command. *)
Context (API_ENDPOINT config_S3_PREFIX : string)
        (server : string → list (string * string) → result Response)
        (valid_s3_path : string → bool)
        (return_code : string → Z).

Definition SUB_DIR : string :=
  os_path_join (os_path_join "metadata" "raw") "adjustments".
Definition S3_PREFIX : string := os_path_join config_S3_PREFIX SUB_DIR.

Definition get (url : string) (params : list (string * string))
    : Run Response :=
  emit (requests_get url params);;
  lift (server url params).

Definition dassert_in (x : Z) (l : list Z) (msg : string) : Run unit :=
  if decide (x ∈ l) then ret tt else raise (AssertionError msg).

(** [si.system(cmd)] stops the script when the command fails. *)
Definition si_system (cmd : string) : Run unit :=
  emit (system cmd);;
  if decide (return_code cmd = 0) then ret tt
  else raise (Exception ("cmd='" +:+ cmd +:+ "' failed")).

Definition login_params (args : Namespace) : list (string * string) :=
  [("action", "login"); ("user", username args);
   ("password", password args)].

Definition adjustments_params (args : Namespace) : list (string * string) :=
  [("action", "adjustments"); ("symbol", "allsymbols");
   ("startdate", start_date args)].

(** [int(response.text.split()[0])]. *)
Definition status_code_of (response : Response) : Run Z :=
  match String.words (text response) with
  | [] => raise (Exception "IndexError: list index out of range")
  | word :: _ =>
      match int word with
      | Some status_code => ret status_code
      | None => raise (ValueError ("invalid literal for int(): " +:+ word))
      end
  end.

Definition _main (args : Namespace) : Run Z :=
  let incremental := negb (no_incremental args) in
  emit (create_dir (tmp_dir args) incremental);;
  response <- get API_ENDPOINT (login_params args);;
  status_code <- status_code_of response;;
  let accepted_status_codes := [200; 407] in
  dassert_in status_code accepted_status_codes
    ("Failed to login: " +:+ text response);;
  response <- get API_ENDPOINT (adjustments_params args);;
  let file_name := "downloads_" +:+ start_date args +:+ ".txt" in
  let file_path :=
    os_path_join (os_path_join (tmp_dir args) SUB_DIR) file_name in
  emit (to_file file_path (content response));;
  let aws_path := os_path_join S3_PREFIX file_name in
  (if valid_s3_path aws_path then ret tt
   else raise (AssertionError ("Invalid S3 path: " +:+ aws_path)));;
  let cmd := "aws s3 cp " +:+ file_path +:+ " " +:+ aws_path in
  si_system cmd;;
  ret 0.

(** The HTTP requests of a run, in order. *)
Definition http_requests (evs : list Effect)
    : list (list (string * string)) :=
  omap (λ e, match e with
             | requests_get _ params => Some params
             | _ => None
             end) evs.

(** The login is accepted: the server answers and the first word of the
    answer is 200 or 407. *)
Definition login_accepted (args : Namespace) : Prop :=
  ∃ response word rest,
    server API_ENDPOINT (login_params args) = Ok response ∧
    String.words (text response) = word :: rest ∧
    (int word = Some 200 ∨ int word = Some 407).

End script.
End download_adjustments.

(** ** [dev_scripts/notebooks/publish_notebook.py] *)

Module publish_notebook.

(** What [--action] can hold: one of the five choices or, when the option
    is absent, the default, which is the list [["convert"]]. *)
Inductive Action :=
  | default_action
  | convert
  | open
  | publish_locally
  | publish_on_s3
  | publish_on_webserver.

Record Namespace := {
  file : string;
  branch : option string;
  publish_notebook_dir : option string;
  tag : string;
  s3_path : option string;
  aws_profile : option string;
  action : Action
}.

Inductive Effect :=
  | system (cmd : string)
  | create_dir (dir : string) (incr : bool)
  | s3fs_put (aws_profile local_src_path remote_path : string)
  | requests_post (url dst_path local_src_path : string)
  | open_file (file_name : string).

Abbreviation Run := (M unit Effect).

Section script.
(** The environment of the script: [os.environ], the files that exist,
    [os.path], [tempfile.gettempdir()], the formatted
    [datetime.datetime.now()] and the return code of a shell command. *)
Context (os_environ : gmap string string)
        (os_path_exists : string → bool)
        (os_path_realpath os_path_dirname os_path_basename : string → string)
        (os_path_splitext : string → string * string)
        (tempfile_gettempdir : string)
        (now_strftime : string)
        (return_code : string → Z).

Definition dassert (cond : bool) (msg : string) : Run unit :=
  if cond then ret tt else raise (AssertionError msg).

(** [si.system(cmd)] stops the script when the command fails. *)
Definition si_system (cmd : string) : Run unit :=
  emit (system cmd);;
  if decide (return_code cmd = 0) then ret tt
  else raise (Exception ("cmd='" +:+ cmd +:+ "' failed")).

Definition _get_path (path_or_url : string) : Run string :=
  if contains path_or_url "https://github" then
    ret (String.concat "/" (drop 7 (split_on path_or_url "/")))
  else if contains path_or_url "http://" then
    let ret_ := String.concat "/" (drop 4 (split_on path_or_url "/")) in
    dassert (os_path_exists ret_) ("File doesn't exist: " +:+ ret_);;
    ret ret_
  else if endswith path_or_url ".ipynb" && os_path_exists path_or_url then
    ret path_or_url
  else raise (ValueError ("Incorrect file '" +:+ path_or_url +:+ "'")).

Definition _get_file_from_git_branch (git_branch git_path : string)
    : Run string :=
  let dst_file_name :=
    os_path_join tempfile_gettempdir (os_path_basename git_path) in
  si_system ("git show " +:+ git_branch +:+ ":" +:+ git_path +:+ " > "
             +:+ dst_file_name);;
  ret dst_file_name.

Definition _add_tag (file_name tag : string) : string :=
  let '(name, extension) := os_path_splitext (os_path_basename file_name) in
  let tag := if decide (tag = "") then tag else "." +:+ tag in
  let tag := tag +:+ "." +:+ now_strftime in
  name +:+ tag +:+ extension.

Definition html_name_of (ipynb_file_name tag : string) : string :=
  let dir_path := os_path_dirname (os_path_realpath ipynb_file_name) in
  let file_name := (os_path_splitext (os_path_basename ipynb_file_name)).1 in
  let html_file_name := file_name +:+ ".html" in
  let html_file_name := _add_tag html_file_name tag in
  os_path_join dir_path html_file_name.

Definition nbconvert (ipynb_file_name dst_file_name : string) : string :=
  "jupyter nbconvert " +:+ ipynb_file_name +:+ " --to html --output "
  +:+ dst_file_name.

Definition _export_notebook_to_html (ipynb_file_name tag : string)
    : Run string :=
  let dst_file_name := html_name_of ipynb_file_name tag in
  let cmd := nbconvert ipynb_file_name dst_file_name in
  si_system cmd;;
  ret dst_file_name.

(** What is printed for the user is left out, as are messages to the
    log. *)
Definition _export_notebook_to_dir (ipynb_file_name tag dst_dir : string)
    : Run string :=
  html_src_path <- _export_notebook_to_html ipynb_file_name tag;;
  let html_file_name := os_path_basename html_src_path in
  let html_dst_path := os_path_join dst_dir html_file_name in
  emit (create_dir dst_dir true);;
  let cmd := "mv " +:+ html_src_path +:+ " " +:+ html_dst_path in
  si_system cmd;;
  ret html_dst_path.

Definition _post_to_s3 (local_src_path s3_path aws_profile : string)
    : Run string :=
  dassert (os_path_exists local_src_path)
    ("File doesn't exist: " +:+ local_src_path);;
  dassert (startswith s3_path "s3://")
    ("S3 path needs to start with `s3://`, instead s3_path='" +:+ s3_path
     +:+ "'");;
  dassert (endswith s3_path "/notebooks")
    ("S3 path needs to point to a `notebooks` dir, instead s3_path='"
     +:+ s3_path +:+ "'");;
  let basename := os_path_basename local_src_path in
  let remote_path := os_path_join s3_path basename in
  emit (s3fs_put aws_profile local_src_path remote_path);;
  ret remote_path.

Definition _post_to_webserver (local_src_path remote_dst_path : string)
    : Run unit :=
  let _NOTEBOOK_KEEPER_SRV := "http://notebook-keeper" in
  let _NOTEBOOK_KEEPER_ENTRY_POINT := _NOTEBOOK_KEEPER_SRV +:+ "/save-file" in
  emit (requests_post _NOTEBOOK_KEEPER_ENTRY_POINT remote_dst_path
          local_src_path).

Definition from_env (env_var : string) : Run string :=
  match os_environ !! env_var with
  | Some v => ret v
  | None =>
      raise (AssertionError
               ("The env needs to set env var '" +:+ env_var +:+ "'"))
  end.

(** An option that is absent or empty is not used. *)
Definition _get_s3_path (args : Namespace) : Run string :=
  match s3_path args with
  | Some s => if decide (s = "") then from_env "AM_PUBLISH_NOTEBOOK_S3_PATH"
              else ret s
  | None => from_env "AM_PUBLISH_NOTEBOOK_S3_PATH"
  end.

Definition _get_aws_profile (args : Namespace) : Run string :=
  match aws_profile args with
  | Some s =>
      if decide (s = "") then from_env "AM_PUBLISH_NOTEBOOK_AWS_PROFILE"
      else ret s
  | None => from_env "AM_PUBLISH_NOTEBOOK_AWS_PROFILE"
  end.

Definition ls_cmd (aws_profile src_file_name : string) : string :=
  "aws s3 ls --profile " +:+ aws_profile +:+ " " +:+ src_file_name.

Definition cp_cmd (aws_profile src_file_name local_file_name : string)
    : string :=
  "aws s3 cp --profile " +:+ aws_profile +:+ " " +:+ src_file_name +:+ " "
  +:+ local_file_name.

(** The source file of the later actions: checked out of [--branch] when
    one is given, and else resolved from [--file]. *)
Definition src_file_name_of (args : Namespace) : Run string :=
  match branch args with
  | Some b =>
      if decide (b = "") then _get_path (file args)
      else _get_file_from_git_branch b (file args)
  | None => _get_path (file args)
  end.

Definition _main (args : Namespace) : Run unit :=
  match action args with
  | open =>
      let src_file_name := file args in
      aws_profile <- _get_aws_profile args;;
      si_system (ls_cmd aws_profile src_file_name);;
      let local_file_name := os_path_basename src_file_name in
      si_system (cp_cmd aws_profile src_file_name local_file_name);;
      emit (open_file local_file_name);;
      raise (SystemExit 0)
  | act =>
      src_file_name <- src_file_name_of args;;
      match act with
      | convert =>
          let dst_dir := "." in
          html_file_name <-
            _export_notebook_to_dir src_file_name (tag args) dst_dir;;
          emit (open_file html_file_name)
      | publish_locally =>
          dst_dir <-
            match publish_notebook_dir args with
            | Some d => ret d
            | None => from_env "AM_PUBLISH_NOTEBOOK_LOCAL_PATH"
            end;;
          dassert (os_path_exists dst_dir)
            ("Dir doesn't exist: " +:+ dst_dir);;
          emit (create_dir dst_dir true);;
          _export_notebook_to_dir src_file_name (tag args) dst_dir;;
          ret tt
      | publish_on_s3 =>
          let dst_dir := "." in
          html_file_name <-
            _export_notebook_to_dir src_file_name (tag args) dst_dir;;
          s3_path <- _get_s3_path args;;
          aws_profile <- _get_aws_profile args;;
          _post_to_s3 html_file_name s3_path aws_profile;;
          ret tt
      | publish_on_webserver => raise (UnboundLocalError "html_file_name")
      | _ => raise (AssertionError "Invalid action")
      end
  end.

(** The shell commands of a run, in order. *)
Definition commands (evs : list Effect) : list string :=
  omap (λ e, match e with system cmd => Some cmd | _ => None end) evs.

End script.
End publish_notebook.

(** ** The DAG runners of [dataflow/core/runners.py] *)

Module dataflow.

(** Times are minutes; an interval is a start and an end. *)
Abbreviation Interval := (Z * Z)%type.

Section runners.
Context {Config FitState DataFrame : Type}.

(** Modelled from the spec: [dataflow/core/runners.py], the DAG class and
    the DAG builders are not among the sources, only
    [dataflow/core/test/test_runners.py] is. By the specification a runner
    traverses a graph that its [dag_builder] built beforehand and has no
    scheduler of its own; the test gives the constructors and the methods.
    A DAG is its nodes in a topological order; a node names its parents. *)
Record Node := {
  nid : string;
  parents : list string
}.

Record DAG := {
  nodes : list Node;
  fit_state : gmap string FitState
}.

Record DagBuilder := {
  get_config_template : Config;
  get_dag : Config → DAG
}.

Record ResultBundle := {
  result_df : DataFrame;
  method : string;
  interval : Interval
}.

Inductive Effect :=
  | visit (nid_ method_ : string) (interval_ : Interval).

(** Modelled from the spec: what a node computes when it is run is a
    statistical computation, outside the specification; it is taken from
    the node: from the method, the interval, the fit state of the node and
    the outputs of its parents to a new fit state and an output. *)
Context (node_run : Node → string → Interval → option FitState →
                    list DataFrame → option FitState * DataFrame)
        (no_df : DataFrame).

(** The state of a run: the fit state of the nodes. *)
Abbreviation Run := (M (gmap string FitState) Effect).

Definition run_node (outputs : gmap string DataFrame) (method_ : string)
    (interval_ : Interval) (n : Node) : Run DataFrame :=
  emit (visit (nid n) method_ interval_);;
  state <- gets (λ st, st !! nid n);;
  let inputs := omap (λ p, outputs !! p) (parents n) in
  let '(state', df) := node_run n method_ interval_ state inputs in
  modify (λ st, match state' with
                | Some s => <[nid n := s]> st
                | None => st
                end);;
  ret df.

(** Modelled from the spec: one traversal of the graph, node after node in
    the order of the DAG; the output of the last node is the result. *)
Fixpoint run_nodes (ns : list Node) (outputs : gmap string DataFrame)
    (last : DataFrame) (method_ : string) (interval_ : Interval)
    : Run DataFrame :=
  match ns with
  | [] => ret last
  | n :: ns =>
      df <- run_node outputs method_ interval_ n;;
      run_nodes ns (<[nid n := df]> outputs) df method_ interval_
  end.

Definition run_dag (dag : DAG) (method_ : string) (interval_ : Interval)
    : Run ResultBundle :=
  df <- run_nodes (nodes dag) ∅ no_df method_ interval_;;
  ret {| result_df := df; method := method_; interval := interval_ |}.

(** [list(gen)] of a generator that yields one bundle per item. *)
Fixpoint collect {A} (l : list A) (body : A → Run ResultBundle)
    : Run (list ResultBundle) :=
  match l with
  | [] => ret []
  | x :: l => rb <- body x;; rbs <- collect l body;; ret (rb :: rbs)
  end.

(** [pd.date_range(start, end, freq=freq)]. *)
Definition date_range (start end_ freq : Z) : list Z :=
  if decide (0 < freq ∧ start ≤ end_)
  then (λ i : nat, start + Z.of_nat i * freq) <$>
       seq 0 (Z.to_nat ((end_ - start) / freq) + 1)
  else [].

(** Modelled from the spec: a runner keeps the DAG that its builder built
    from the configuration when the runner was made. *)
Record DagRunner := {
  config : Config;
  _dag_builder : DagBuilder;
  dag : DAG
}.

Definition DagRunner__init__ (config_ : Config) (dag_builder : DagBuilder)
    : DagRunner :=
  {| config := config_; _dag_builder := dag_builder;
     dag := get_dag dag_builder config_ |}.

(** Modelled from the spec: [RollingFitPredictDagRunner.fit_predict] fits
    and predicts once per retraining datetime; how the datetimes come from
    [start], [end], [retraining_freq] and [retraining_lookback] is not
    specified and is taken as given. *)
Definition fit_predict (runner : DagRunner)
    (retraining : list (Interval * Interval)) : Run (list ResultBundle) :=
  collect retraining (λ '(fit_interval, predict_interval),
    run_dag (dag runner) "fit" fit_interval;;
    run_dag (dag runner) "predict" predict_interval).

(** Modelled from the spec: [IncrementalDagRunner.predict] predicts once
    per step of the date range, each time up to that step. *)
Definition incremental_predict (runner : DagRunner) (start end_ freq : Z)
    : Run (list ResultBundle) :=
  collect (date_range start end_ freq) (λ t,
    run_dag (dag runner) "predict" (start, t)).

(** Modelled from the spec: [RealTimeDagRunner.predict] predicts once per
    event of the real-time loop, whose times are taken as given. *)
Definition real_time_predict (runner : DagRunner) (events : list Z)
    : Run (list ResultBundle) :=
  collect events (λ t, run_dag (dag runner) "predict" (t, t)).

(** The graph of a DAG: its nodes with their parents, in order. *)
Definition graph (d : DAG) : list (string * list string) :=
  (λ n, (nid n, parents n)) <$> nodes d.

(** The traversals a run is made of: the method and the interval of each
    run of the DAG, in order, each with the nodes it visits. *)
Definition traversal (d : DAG) (method_ : string) (interval_ : Interval)
    : list Effect :=
  (λ n, visit (nid n) method_ interval_) <$> nodes d.

End runners.
End dataflow.

(** ** Concrete runs *)

Module examples.

(** Integer arguments, hashed by their decimal writing; objects that hold
    an integer. *)
Definition hash_Z : Hashing Z := λ z, pretty z.
#[export] Existing Instance hash_Z.

Definition double_body (a : Z) (h : gmap positive Z)
    : result positive * gmap positive Z :=
  let r := fresh (dom h) in (Ok r, <[r := 2 * a]> h).

Definition double_live a h r h' :
  double_body a h = (Ok r, h') → is_Some (h' !! r).
Proof. intros [= <- <-]. rewrite lookup_insert_eq. eauto. Qed.

(** [def double(x): return 2 * x] and, under the same name, a later
    version of it that is a new function object with a new source. *)
Definition double : Func (Args := Z) (Obj := Z) :=
  {| f_obj := 7; f_func_id := "mod/double"; f_named := true;
     f_code := "def double(x): return 2 * x"; f_first_line := 1;
     f_code_hash := 11; f_body := double_body; f_live := double_live |}.

Definition double_v2 : Func (Args := Z) (Obj := Z) :=
  {| f_obj := 8; f_func_id := "mod/double"; f_named := true;
     f_code := "def double(x): return x + x"; f_first_line := 1;
     f_code_hash := 12; f_body := double_body; f_live := double_live |}.

Definition cached (f : Func (Args := Z) (Obj := Z)) : Cached :=
  {| _func := f; _use_mem_cache := true; _use_disk_cache := true;
     _set_verbose_mode := true; _tag := None;
     _disk_cache := {| memory_id := 1;
                       location := "/repo/tmp.joblib.disk" |};
     _memory_cache := {| memory_id := 2;
                         location := "/mnt/tmpfs/tmp.joblib.mem" |} |}.

Definition world0 : World (Obj := Z) :=
  {| _USE_CACHING := true; _DISK_CACHE := None; _MEMORY_CACHE := None;
     next_memory_id := 1; _FUNCTION_HASHES := ∅; fs := ∅; heap := ∅;
     _last_used_disk_cache := false; _last_used_mem_cache := false |}.

(** The first call of [double(5)] through the cache, and the state it
    leaves. *)
Definition first_call := __call__ (cached double) 5 world0.
Definition world1 : World (Obj := Z) := first_call.1.2.

(** An exchange that lists two pairs and answers every download. *)
Definition binance : download_historical.CcxtExchange string string :=
  {| download_historical.currency_pairs := ["BTC/USDT"; "ETH/USDT"];
     download_historical.download_ohlcv_data := λ pair _ _ _,
       Ok ("ohlcv of " +:+ pair) |}.

Definition historical_args : download_historical.Namespace :=
  {| download_historical.dst_dir := "test";
     download_historical.api_keys := "keys.json";
     download_historical.exchange_ids := "binance";
     download_historical.args_currency_pairs := "BTC/USDT";
     download_historical.start_datetime := "2019-01-01";
     download_historical.end_datetime := Some "2019-01-02";
     download_historical.step := None;
     download_historical.sleep_time := 60;
     download_historical.incremental := false |}.

Definition historical_run :=
  download_historical._main (λ _ _, Ok binance) (λ s, Ok s) "now"
    historical_args tt.

(** A server that accepts the login. *)
Definition kibot (url : string) (params : list (string * string))
    : result download_adjustments.Response :=
  Ok {| download_adjustments.text := "200 logged in";
        download_adjustments.content := "adjustments" |}.

Definition adjustments_args : download_adjustments.Namespace :=
  {| download_adjustments.username := "user";
     download_adjustments.password := "secret";
     download_adjustments.start_date := "5/1/2020";
     download_adjustments.tmp_dir := "tmp.kibot_downloader";
     download_adjustments.no_incremental := false |}.

Definition adjustments_run :=
  download_adjustments._main "http://api.kibot.com" "s3://bucket/kibot"
    kibot (λ _, true) (λ _, 0) adjustments_args tt.

Definition open_args : publish_notebook.Namespace :=
  {| publish_notebook.file := "s3://bucket/notebooks/Task768.html";
     publish_notebook.branch := None;
     publish_notebook.publish_notebook_dir := None;
     publish_notebook.tag := "v1";
     publish_notebook.s3_path := None;
     publish_notebook.aws_profile := Some "am";
     publish_notebook.action := publish_notebook.open |}.

Definition open_run :=
  publish_notebook._main ∅ (λ _, true) id id (λ _, "Task768.html")
    (λ s, (s, "v1")) "/tmp" "20180802_162438" (λ _, 0) open_args tt.

(** A function that raises, and wrappers with one level or none. *)
Definition broken_body (a : Z) (h : gmap positive Z)
    : result positive * gmap positive Z :=
  (Raise (ValueError "negative"), h).

Definition broken_live a h r h' :
  broken_body a h = (Ok r, h') → is_Some (h' !! r).
Proof. done. Qed.

Definition broken : Func (Args := Z) (Obj := Z) :=
  {| f_obj := 9; f_func_id := "mod/broken"; f_named := true;
     f_code := "def broken(x): raise ValueError"; f_first_line := 1;
     f_code_hash := 13; f_body := broken_body; f_live := broken_live |}.

Definition cached_as (f : Func (Args := Z) (Obj := Z))
    (use_mem_cache use_disk_cache : bool) : Cached :=
  {| _func := f; _use_mem_cache := use_mem_cache;
     _use_disk_cache := use_disk_cache;
     _set_verbose_mode := true; _tag := None;
     _disk_cache := {| memory_id := 1;
                       location := "/repo/tmp.joblib.disk" |};
     _memory_cache := {| memory_id := 2;
                         location := "/mnt/tmpfs/tmp.joblib.mem" |} |}.

Definition disk_only_call := __call__ (cached_as double false true) 5 world0.
Definition broken_call := __call__ (cached broken) 5 world0.

(** A memory store whose entry for [double(5)] has lost its
    [func_code.py]. *)
Definition world_no_source : World (Obj := Z) :=
  {| _USE_CACHING := true; _DISK_CACHE := None; _MEMORY_CACHE := None;
     next_memory_id := 1; _FUNCTION_HASHES := ∅;
     fs := {[ "/mnt/tmpfs/tmp.joblib.mem" :=
                {[ "mod/double" :=
                     {| func_code_py := None; items := {[ "5" := 10 ]} |} ]} ]};
     heap := ∅;
     _last_used_disk_cache := false; _last_used_mem_cache := false |}.

(** A server that refuses the login. *)
Definition kibot_refuses (url : string) (params : list (string * string))
    : result download_adjustments.Response :=
  Ok {| download_adjustments.text := "401 wrong password";
        download_adjustments.content := "" |}.

Definition refused_run :=
  download_adjustments._main "http://api.kibot.com" "s3://bucket/kibot"
    kibot_refuses (λ _, true) (λ _, 0) adjustments_args tt.

(** [os.path] on paths without a trailing slash. *)
Definition basename (path : string) : string :=
  default "" (last (split_on path "/")).
Definition dirname (path : string) : string :=
  String.concat "/" (removelast (split_on path "/")).
Definition splitext (path : string) : string * string :=
  match split_on path "." with
  | [] | [_] => (path, "")
  | fields =>
      (String.concat "." (removelast fields),
       "." +:+ default "" (last fields))
  end.

Definition notebook_args (act : publish_notebook.Action)
    : publish_notebook.Namespace :=
  {| publish_notebook.file := "nlp/notebooks/Task768.ipynb";
     publish_notebook.branch := None;
     publish_notebook.publish_notebook_dir := None;
     publish_notebook.tag := "v1";
     publish_notebook.s3_path := Some "s3://bucket/notebooks";
     publish_notebook.aws_profile := Some "am";
     publish_notebook.action := act |}.

Definition notebook_run (act : publish_notebook.Action) :=
  publish_notebook._main ∅ (λ _, true) id dirname basename splitext "/tmp"
    "20180802_162438" (λ _, 0) (notebook_args act) tt.

End examples.

(** * Proofs *)

Set Warnings "-clear-no-such-hyp".

Section cache_proofs.
Context {Args Obj : Type} `{!Hashing Args}.
Implicit Types (w : @World Obj) (mf : @MemorizedFunc Args Obj) (self : @Cached Args Obj).

Arguments lookup_events : simpl never.

Ltac run := unfold bind, ret, gets, modify, emit, raise, catch; simpl.
Ltac rew_hyps :=
  repeat match goal with
         | H : ?l = _ |- context [?l] => rewrite H
         end.
Ltac mrun := repeat (progress (run; rew_hyps)).
Ltac crush :=
  run; repeat (case_match; simplify_eq/=); repeat case_bool_decide;
  simplify_eq/=; try done.

Lemma has_cached_mem self fid aid w :
  _has_cached_version self "mem" fid aid w =
  (entry_state (_memory_cached_func self) fid aid w, w,
   lookup_events (_memory_cached_func self) fid aid w).
Proof.
  unfold _has_cached_version, _get_cache, contains_item, get_cached_func_code,
    entry_state, lookup_events, has_item, stored_code, extract_first_line.
  crush.
Qed.

Lemma has_cached_disk self fid aid w :
  _has_cached_version self "disk" fid aid w =
  (entry_state (_disk_cached_func self) fid aid w, w,
   lookup_events (_disk_cached_func self) fid aid w).
Proof.
  unfold _has_cached_version, _get_cache, contains_item, get_cached_func_code,
    entry_state, lookup_events, has_item, stored_code, extract_first_line.
  crush.
Qed.

Arguments hit_events : simpl never.

(** joblib serves a valid entry without running the function. *)
Lemma cached_call_hit mf a w :
  entry_state mf (f_func_id (func mf)) (hashing_hash a) w = Ok true →
  ∃ o,
    cached_value mf (f_func_id (func mf)) (hashing_hash a) w = Some o ∧
    _cached_call mf a w =
      (Ok (fresh (dom (heap w))),
       set_heap (<[fresh (dom (heap w)) := o]> (heap w)) w,
       hit_events mf a w).
Proof.
  unfold entry_state, has_item, cached_value, stored_code, hit_events.
  intros Hv.
  destruct (lookup_dir _ _ _) as [d|] eqn:Hd; simplify_eq/=.
  case_bool_decide as Hi; simplify_eq/=. destruct Hi as [o Ho].
  exists o. split; [done|].
  unfold _cached_call, _get_output_identifiers, _check_previous_func_code,
    contains_item, load_item, get_cached_func_code, extract_first_line, alloc.
  destruct (in_FUNCTION_HASHES mf w) eqn:Hk.
  - assert (Hi : bool_decide (is_Some (items d !! hashing_hash a)) = true)
      by (apply bool_decide_eq_true_2; eauto).
    by mrun.
  - destruct (func_code_py d) as [[c n]|] eqn:Hc; simplify_eq/=.
    case_bool_decide as Hcode; simplify_eq/=.
    assert (Hi : bool_decide (is_Some (items d !! hashing_hash a)) = true)
      by (apply bool_decide_eq_true_2; eauto).
    mrun. rewrite decide_True by done. by mrun.
Qed.

Lemma lookup_dir_update loc fid g w :
  lookup_dir loc fid (update_dir loc fid g w) =
  Some (g (default empty_dir (lookup_dir loc fid w))).
Proof.
  unfold lookup_dir, update_dir. simpl.
  by rewrite lookup_total_insert_eq, lookup_insert_eq.
Qed.

Lemma no_load_in (evs : list (@Event Args)) :
  Forall (λ e, match e with EvLoad _ _ _ => False | _ => True end) evs →
  ∀ c, ¬ loaded_from c evs.
Proof.
  intros Hall c (fid & aid & Hin). rewrite Forall_forall in Hall.
  by apply Hall in Hin.
Qed.

Lemma entry_state_true mf aid w :
  entry_state mf (f_func_id (func mf)) aid w = Ok true ↔
  has_item mf (f_func_id (func mf)) aid w = true ∧ code_ok mf w.
Proof.
  unfold entry_state, code_ok.
  destruct (has_item _ _ _ _); [|naive_solver].
  destruct (in_FUNCTION_HASHES mf w); [naive_solver|].
  destruct (stored_code _ _ _) as [c|]; [|naive_solver].
  case_bool_decide; naive_solver.
Qed.

Lemma check_previous_spec mf w :
  ∃ b w1 e1,
    _check_previous_func_code mf w = (Ok b, w1, e1) ∧
    quiet (mf_name mf) e1 ∧
    same_settings w w1 ∧ heap w1 = heap w ∧
    code_ok mf w1 ∧
    (b = true → w1 = w).
Proof.
  unfold _check_previous_func_code, get_cached_func_code, extract_first_line,
    mf_clear, clear_path, _write_func_code, store_cached_func_code,
    get_func_code, code_ok, stored_code, quiet, same_settings.
  destruct (in_FUNCTION_HASHES mf w) eqn:Hk.
  { exists true, w, []. mrun. naive_solver. }
  destruct (lookup_dir (store_location mf) (f_func_id (func mf)) w ≫=
            func_code_py) as [[c n]|] eqn:Hc.
  - destruct (decide (c = f_code (func mf))) as [->|Hne].
    + exists true, w, [EvReadCode (mf_name mf) (f_func_id (func mf))].
      mrun. rewrite decide_True by done. mrun.
      split; [done|]. split; [repeat constructor|]. naive_solver.
    + destruct (f_named (func mf)) eqn:Hn; eexists false, _, _; mrun;
        rewrite decide_False by done; mrun.
      all: split; [done|]; split; [repeat constructor|].
      all: split; [done|]; split; [done|]; split; [|done].
      * left. unfold in_FUNCTION_HASHES. simpl. rewrite lookup_insert_eq.
        by apply bool_decide_eq_true_2.
      * right. rewrite lookup_dir_update; simpl; eauto.
  - destruct (f_named (func mf)) eqn:Hn; eexists false, _, _; mrun.
    all: split; [done|]; split; [repeat constructor|].
    all: split; [done|]; split; [done|]; split; [|done].
    + left. unfold in_FUNCTION_HASHES. simpl. rewrite lookup_insert_eq.
      by apply bool_decide_eq_true_2.
    + right. rewrite lookup_dir_update; simpl; eauto.
Qed.

Lemma lookup_dir_set_heap loc fid h w :
  lookup_dir loc fid (set_heap h w) = lookup_dir loc fid w.
Proof. done. Qed.

Lemma mf_call_spec mf a w res w' evs :
  mf_call mf a w = (res, w', evs) →
  code_ok mf w →
  same_settings w w' ∧
  (∀ r, res = Ok r →
     evs = [EvExec (f_obj (func mf)) a;
            EvDump (mf_name mf) (f_func_id (func mf)) (hashing_hash a)] ∧
     entry_state mf (f_func_id (func mf)) (hashing_hash a) w' = Ok true ∧
     ∃ o, cached_value mf (f_func_id (func mf)) (hashing_hash a) w' = Some o ∧
          heap w' !! r = Some o) ∧
  (∀ e, res = Raise e → evs = [EvExec (f_obj (func mf)) a]).
Proof.
  unfold mf_call, call_func, dump_item, _get_output_identifiers.
  destruct (f_body (func mf) a (heap w)) as [[r|e] h'] eqn:Hb.
  - destruct (f_live _ _ _ _ _ Hb) as [o Ho]. mrun.
    intros [= <- <- <-] Hok. split; [done|]. split; [|done].
    intros ? [= <-]. split; [done|]. split.
    + apply entry_state_true. split.
      * unfold has_item. rewrite lookup_dir_update. simpl.
        apply bool_decide_eq_true_2. rewrite lookup_insert_eq. eauto.
      * destruct Hok as [Hk|(c & Hc & Hcode)]; [by left|right].
        exists c. split; [|done]. unfold stored_code in *.
        rewrite lookup_dir_update. simpl. rewrite lookup_dir_set_heap.
        by destruct (lookup_dir _ _ w).
    + exists o. split; [|done]. unfold cached_value.
      rewrite lookup_dir_update. simpl. by rewrite lookup_insert_eq.
  - mrun. intros [= <- <- <-] _. split; [done|]. split; [done|].
    by intros ? [= <-].
Qed.

Lemma bind_Ok {S E A B} (c : M S E A) (k : A → M S E B) s a s' e1 :
  c s = (Ok a, s', e1) →
  bind c k s = let '(r, s'', e2) := k a s' in (r, s'', (e1 ++ e2)%list).
Proof. unfold bind. by intros ->. Qed.

Lemma bind_Raise {S E A B} (c : M S E A) (k : A → M S E B) s e s' e1 :
  c s = (Raise e, s', e1) → bind c k s = (Raise e, s', e1).
Proof. unfold bind. by intros ->. Qed.

Lemma same_settings_refl w : same_settings w w.
Proof. by repeat split. Qed.

Lemma same_settings_trans w1 w2 w3 :
  same_settings w1 w2 → same_settings w2 w3 → same_settings w1 w3.
Proof. unfold same_settings. naive_solver congruence. Qed.

(** Without a valid entry joblib runs the function, once, and persists what
    it returns. *)
Lemma cached_call_miss mf a w res w' evs :
  entry_state mf (f_func_id (func mf)) (hashing_hash a) w ≠ Ok true →
  _cached_call mf a w = (res, w', evs) →
  ∃ pre,
    quiet (mf_name mf) pre ∧ same_settings w w' ∧
    (∀ r, res = Ok r →
       evs = (pre ++ [EvExec (f_obj (func mf)) a;
                EvDump (mf_name mf) (f_func_id (func mf)) (hashing_hash a)])%list ∧
       entry_state mf (f_func_id (func mf)) (hashing_hash a) w' = Ok true ∧
       ∃ o, cached_value mf (f_func_id (func mf)) (hashing_hash a) w' = Some o ∧
            heap w' !! r = Some o) ∧
    (∀ e, res = Raise e → evs = (pre ++ [EvExec (f_obj (func mf)) a])%list).
Proof.
  intros Hne.
  destruct (check_previous_spec mf w)
    as (b & w1 & e1 & Hchk & Hq & Hset & Hheap & Hok & Hsame).
  unfold _cached_call. simpl. rewrite (bind_Ok _ _ _ _ _ _ Hchk).
  destruct b.
  - rewrite Hsame in * by done. clear Hsame.
    assert (Hi : has_item mf (f_func_id (func mf)) (hashing_hash a) w = false).
    { destruct (has_item _ _ _ _) eqn:Hi; [|done].
      destruct Hne. by apply entry_state_true. }
    unfold contains_item. unfold has_item in Hi. mrun.
    destruct (mf_call mf a w) as [[res1 w2] e2] eqn:Hcall.
    intros [= <- <- <-].
    destruct (mf_call_spec _ _ _ _ _ _ Hcall Hok) as (Hs2 & HOk & HRaise).
    exists (e1 ++ [EvContains (mf_name mf) (f_func_id (func mf))
                      (hashing_hash a)])%list.
    split. { apply Forall_app. split; [done|]. repeat constructor. }
    split; [done|]. split.
    + intros r Hr. destruct (HOk r Hr) as (-> & ? & ?).
      split; [|done]. by rewrite <-app_assoc.
    + intros e He. rewrite (HRaise e He). by rewrite <-app_assoc.
  - mrun. destruct (mf_call mf a w1) as [[res1 w2] e2] eqn:Hcall.
    intros [= <- <- <-].
    destruct (mf_call_spec _ _ _ _ _ _ Hcall Hok) as (Hs2 & HOk & HRaise).
    exists e1. split; [done|].
    split; [by eapply same_settings_trans|]. split.
    + intros r Hr. by destruct (HOk r Hr) as (-> & ? & ?).
    + intros e He. by rewrite (HRaise e He).
Qed.

Lemma store_cached_mem self (a : Args) obj o w :
  heap w !! obj = Some o →
  ∃ w',
    _store_cached_version self "mem" (f_func_id (_func self)) (hashing_hash a)
      obj w =
    (Ok tt, w',
     [EvWriteCode "mem" (f_func_id (_func self));
      EvDump "mem" (f_func_id (_func self)) (hashing_hash a)]) ∧
    same_settings w w' ∧ heap w' = heap w ∧
    valid_with (_memory_cached_func self) a w' obj.
Proof.
  intros Ho.
  unfold _store_cached_version, _get_cache, _write_func_code, dump_item,
    store_cached_func_code, get_func_code, valid_with.
  destruct (f_named (_func self)) eqn:Hn;
    (eexists; split; [by mrun|]).
  all: split; [done|]; split; [done|].
  all: split; [|exists o; split; [|done]; unfold cached_value;
                rewrite lookup_dir_update; simpl; by rewrite lookup_insert_eq].
  all: apply entry_state_true; split;
    [unfold has_item; rewrite lookup_dir_update; simpl;
     apply bool_decide_eq_true_2; rewrite lookup_insert_eq; eauto|].
  - left. unfold in_FUNCTION_HASHES. simpl. rewrite lookup_insert_eq.
    by apply bool_decide_eq_true_2.
  - right. unfold stored_code. rewrite lookup_dir_update. simpl.
    rewrite lookup_dir_update. simpl. eauto.
Qed.

Lemma lookup_events_quiet mf fid aid w :
  quiet (mf_name mf) (lookup_events mf fid aid w).
Proof.
  unfold lookup_events, quiet. destruct (_ && _); repeat constructor.
Qed.

Lemma lookup_events_head mf fid aid w :
  EvContains (mf_name mf) fid aid ∈ lookup_events mf fid aid w.
Proof. unfold lookup_events. set_solver. Qed.

Lemma hit_events_tagged mf a w :
  Forall (λ e, event_cache e = Some (mf_name mf) ∧ is_exec e = false ∧
               match e with EvDump _ _ _ => False | _ => True end)
    (hit_events mf a w).
Proof.
  unfold hit_events. destruct (in_FUNCTION_HASHES mf w); repeat constructor.
Qed.

Lemma execute_from_disk_inv self a w res w' evs :
  _execute_func_from_disk_cache self a w = (res, w', evs) →
  disk_outcome self a w res w' evs.
Proof.
  unfold _execute_func_from_disk_cache, _get_identifiers, _get_cache,
    mf__call__.
  simpl. unfold bind at 1. simpl.
  unfold bind at 1. rewrite has_cached_disk.
  destruct (entry_state _ _ _ w) as [[|]|e] eqn:Hs.
  - destruct (cached_call_hit (_disk_cached_func self) a w Hs) as (o & Ho & Hc).
    mrun. intros [= <- <- <-]. by apply disk_hit.
  - pose proof (lookup_events_quiet (_disk_cached_func self)
      (f_func_id (_func self)) (hashing_hash a) w) as Hle.
    pose proof (lookup_events_head (_disk_cached_func self)
      (f_func_id (_func self)) (hashing_hash a) w) as Hhd.
    revert Hle Hhd. generalize (lookup_events (_disk_cached_func self)
      (f_func_id (_func self)) (hashing_hash a) w). intros le Hle Hhd.
    mrun.
    destruct (_cached_call _ a _) as [[res1 w1] e1] eqn:Hc.
    intros [= <- <- <-].
    eapply cached_call_miss in Hc as (pre & Hq & Hset & HOk & HRaise);
      [|intros Hx;
        change (entry_state (_disk_cached_func self) (f_func_id (_func self))
                  (hashing_hash a) w = Ok true) in Hx; congruence].
    destruct res1 as [r|e].
    + destruct (HOk r eq_refl) as (Heq & Hv & Hval). rewrite Heq, app_assoc.
      apply disk_miss_ok; try done; [by apply Forall_app|].
      apply elem_of_app. by left.
    + rewrite (HRaise e eq_refl), app_assoc.
      apply disk_miss_raise; try done; [by apply Forall_app|].
      apply elem_of_app. by left.
  - intros [= <- <- <-]. by apply disk_error.
Qed.

Lemma disk_outcome_valid self a w r w' evs :
  disk_outcome self a w (Ok r) w' evs →
  valid_with (_disk_cached_func self) a w' r.
Proof.
  inversion 1 as [o Hs Ho| | |]; subst; [|done].
  split; [done|]. exists o. split; [done|]. simpl. by rewrite lookup_insert_eq.
Qed.

Ltac list_norm :=
  unfold lookup_events; simpl; rewrite <-?app_assoc; simpl;
  rewrite ?app_nil_r.

Ltac fold_lookup :=
  match goal with
  | |- context [EvContains ?n ?f ?a ::
                (if has_item ?mf ?f ?a ?w && negb (in_FUNCTION_HASHES ?mf ?w)
                 then _ else []) ++ ?l] =>
      change (EvContains n f a ::
              (if has_item mf f a w && negb (in_FUNCTION_HASHES mf w)
               then [EvReadCode n f] else []) ++ l)
        with (lookup_events mf f a w ++ l)
  end.

Lemma execute_from_mem_inv self a w res w' evs :
  _execute_func_from_mem_cache self a w = (res, w', evs) →
  mem_outcome self a w res w' evs.
Proof.
  unfold _execute_func_from_mem_cache, _get_identifiers, _get_cache,
    mf__call__.
  simpl. unfold bind at 1. simpl.
  unfold bind at 1. rewrite has_cached_mem.
  destruct (entry_state _ _ _ w) as [[|]|e] eqn:Hs.
  - destruct (cached_call_hit (_memory_cached_func self) a w Hs)
      as (o & Ho & Hc).
    simpl in Hc. rewrite Hc.
    intros [= <- <- <-]. by apply mem_hit.
  - unfold bind at 1. simpl. unfold bind at 1.
    destruct (_use_disk_cache self) eqn:Hud.
    + destruct (_execute_func_from_disk_cache self a _)
        as [[[obj|e] w1] e1] eqn:Hd;
        apply execute_from_disk_inv in Hd.
      * destruct (disk_outcome_valid _ _ _ _ _ _ Hd) as (_ & o & _ & Ho).
        destruct (store_cached_mem self a obj o w1 Ho)
          as (w2 & Hst & Hset & Hheap & Hval).
        rewrite (bind_Ok _ _ _ _ _ _ Hst). simpl.
        intros [= <- <- <-].
        by apply (mem_miss_disk_ok self a w obj w1 e1 w2).
      * intros [= <- <- <-]. by apply (mem_miss_disk_raise self a w e w1 e1).
    + destruct (_cached_call _ a _) as [[res1 w1] e1] eqn:Hc.
      eapply cached_call_miss in Hc as (pre & Hq & Hset & HOk & HRaise);
      [|intros Hx;
        change (entry_state (_memory_cached_func self) (f_func_id (_func self))
                  (hashing_hash a) w = Ok true) in Hx; congruence].
      assert (Hq' : quiet "mem"
        (lookup_events (_memory_cached_func self) (f_func_id (_func self))
           (hashing_hash a) w ++ pre)).
      { apply Forall_app. split; [|done].
        apply (lookup_events_quiet (_memory_cached_func self)). }
      destruct res1 as [obj|e].
      * destruct (HOk obj eq_refl) as (Heq & Hv & o & Hcv & Ho). subst e1.
        destruct (store_cached_mem self a obj o w1 Ho)
          as (w2 & Hst & Hset2 & Hheap & Hval).
        rewrite (bind_Ok _ _ _ _ _ _ Hst). simpl.
        intros [= <- <- <-].
        pose proof (mem_miss_ok self a w _ obj w2 Hs Hud Hq'
          (same_settings_trans _ _ _ Hset Hset2) Hval) as Hout.
        revert Hout. list_norm. done.
      * rewrite (HRaise e eq_refl). intros [= <- <- <-].
        pose proof (mem_miss_raise self a w _ e w1 Hs Hud Hq' Hset) as Hout.
        revert Hout. list_norm. done.
  - intros [= <- <- <-]. by apply mem_error.
Qed.

(** *** Facts about event lists *)

Lemma not_executed (l : list (@Event Args)) :
  Forall (λ e, is_exec e = false) l → ¬ executed l.
Proof.
  intros Hall (f & a & Hin). rewrite Forall_forall in Hall.
  by apply Hall in Hin.
Qed.

Lemma not_loaded c (l : list (@Event Args)) :
  Forall (λ e, is_load c e = false) l → ¬ loaded_from c l.
Proof.
  intros Hall (f & a & Hin). rewrite Forall_forall in Hall.
  apply Hall in Hin. simpl in Hin. by case_bool_decide.
Qed.

Lemma loaded_from_app c (l1 l2 : list (@Event Args)) :
  loaded_from c (l1 ++ l2) ↔ loaded_from c l1 ∨ loaded_from c l2.
Proof. unfold loaded_from. setoid_rewrite elem_of_app. naive_solver. Qed.

Ltac calm_list :=
  first
    [ eapply Forall_impl;
      [first [eassumption | apply lookup_events_quiet
             | apply hit_events_tagged]|];
      intros [] ?; simpl in *; try done;
      try case_bool_decide; naive_solver congruence
    | apply Forall_app; split; calm_list
    | repeat constructor; done ].
Lemma not_touches c (l : list (@Event Args)) :
  Forall (λ e, event_cache e ≠ Some c) l → ¬ touches c l.
Proof.
  intros Hall (e & Hin & He). rewrite Forall_forall in Hall.
  by apply Hall in Hin.
Qed.

Lemma not_dumped c fid aid (l : list (@Event Args)) :
  Forall (λ e, match e with
               | EvDump c' _ _ => c' ≠ c
               | _ => True
               end) l →
  EvDump c fid aid ∉ l.
Proof.
  intros Hall Hin. rewrite Forall_forall in Hall. by apply Hall in Hin.
Qed.

Ltac calm :=
  first [apply not_executed | apply not_loaded | apply not_touches
        | apply not_dumped];
  unfold quiet in *; calm_list.

Lemma call_func_spec (f : @Func Args Obj) a w :
  call_func f a w =
  ((f_body f a (heap w)).1,
  set_heap (f_body f a (heap w)).2 w, [EvExec (f_obj f) a]).
Proof. unfold call_func. mrun. by destruct (f_body f a (heap w)) as [[]]. Qed.

Lemma hit_events_load mf a w :
  EvLoad (mf_name mf) (f_func_id (func mf)) (hashing_hash a) ∈
  hit_events mf a w.
Proof. unfold hit_events. set_solver. Qed.

Lemma execute_func_live self a w obj w1 evs :
  _execute_func self a w = (Ok obj, w1, evs) → is_Some (heap w1 !! obj).
Proof.
  unfold _execute_func.
  destruct (_use_mem_cache self); [|destruct (_use_disk_cache self)].
  - intros Hm%execute_from_mem_inv.
    inversion Hm as [o Hs Ho| |? ? ? ? ? ? ? ? ? Hv| |? ? ? ? ? ? ? Hv|]; subst.
    + simpl. rewrite lookup_insert_eq. eauto.
    + destruct Hv as (_ & o & _ & ->). eauto.
    + destruct Hv as (_ & o & _ & ->). eauto.
  - intros Hd%execute_from_disk_inv.
    apply disk_outcome_valid in Hd as (_ & o & _ & ->). eauto.
  - rewrite call_func_spec.
    destruct (f_body _ _ _) as [r h'] eqn:Hb. simpl.
    intros [= -> <- <-]. simpl. by eapply f_live.
Qed.

Lemma call_enabled self a w :
  _USE_CACHING w = true →
  __call__ self a w =
  match _execute_func self a (reset_tracing self w) with
  | (Ok obj, w1, evs) =>
      match heap w1 !! obj with
      | Some o => (Ok (fresh (dom (heap w1))),
                   set_heap (<[fresh (dom (heap w1)) := o]> (heap w1)) w1, evs)
      | None => (Raise PicklingError, w1, evs)
      end
  | (Raise e, w1, evs) => (Raise e, w1, evs)
  end.
Proof.
  intros Hc. unfold __call__, is_caching_enabled, _reset_cache_tracing,
    deepcopy, alloc.
  mrun. fold (reset_tracing self w).
  destruct (_execute_func self a _) as [[[obj|e] w1] evs]; [|done].
  destruct (heap w1 !! obj) eqn:Ho; mrun; by rewrite app_nil_r.
Qed.

Lemma call_disabled self a w :
  _USE_CACHING w = false →
  __call__ self a w =
  call_func (_func self) a
    (set_last_used_mem_cache false (set_last_used_disk_cache false w)).
Proof.
  intros Hc. unfold __call__, is_caching_enabled. mrun.
  by destruct (call_func _ _ _) as [[]].
Qed.

Lemma lookup_events_cons mf fid aid w :
  ∃ tl, lookup_events mf fid aid w = EvContains (mf_name mf) fid aid :: tl.
Proof. unfold lookup_events. eauto. Qed.

Local Opaque hit_events lookup_events.

Lemma execute_func_served self a w obj w1 evs :
  _last_used_mem_cache w = _use_mem_cache self →
  _last_used_disk_cache w = _use_disk_cache self →
  _execute_func self a w = (Ok obj, w1, evs) →
  (_last_used_mem_cache w1 = true ∧ served_from_mem self a evs) ∨
  (_last_used_mem_cache w1 = false ∧ _last_used_disk_cache w1 = true ∧
   served_from_disk self a evs) ∨
  (_last_used_mem_cache w1 = false ∧ _last_used_disk_cache w1 = false ∧
   served_by_func self a evs).
Proof.
  intros Hm Hd. unfold _execute_func, served_from_mem, served_from_disk,
    served_by_func.
  destruct (_use_mem_cache self) eqn:Hum;
    [|destruct (_use_disk_cache self) eqn:Hud].
  - intros Hmem%execute_from_mem_inv.
    inversion Hmem as [o Hs Ho| |? w2 evs_d ? Hs Hud' Hdisk Hset ? Hv|
                       |pre ? ? Hs Hud' Hq Hset Hv|]; subst.
    + left. split; [done|]. split; [|split; calm].
      apply elem_of_app. right.
      apply (hit_events_load (_memory_cached_func self)).
    + right.
      destruct Hset as (_ & _ & _ & _ & Hld & Hlm).
      inversion Hdisk as [o Hsd Ho| |pre ? ? Hsd Hq Hin Hset' Hvd|]; subst.
      * left. simpl in *. rewrite Hlm, Hld, Hd, Hud'.
        split; [done|]. split; [done|]. split; [|split; calm].
        apply elem_of_app. right. apply elem_of_app. left.
        apply elem_of_app. right.
        apply (hit_events_load (_disk_cached_func self)).
      * right. destruct Hset' as (_ & _ & _ & _ & Hld' & Hlm').
        simpl in *. rewrite Hlm, Hld, Hld', Hlm'.
        split; [done|]. split; [done|]. split; [|split; calm].
        set_solver.
    + right. right. destruct Hset as (_ & _ & _ & _ & Hld & Hlm).
      simpl in *. rewrite Hlm, Hld, Hd, Hud'.
      split; [done|]. split; [done|]. split; [|split; calm].
      set_solver.
  - intros Hdisk%execute_from_disk_inv. right.
    inversion Hdisk as [o Hsd Ho| |pre ? ? Hsd Hq Hin Hset' Hvd|]; subst.
    + left. simpl. rewrite Hm, Hd. split; [done|]. split; [done|].
      split; [|split; calm].
      apply elem_of_app. right.
      apply (hit_events_load (_disk_cached_func self)).
    + right. destruct Hset' as (_ & _ & _ & _ & Hld' & Hlm').
      simpl in *. rewrite Hlm', Hld', Hm.
      split; [done|]. split; [done|]. split; [|split; calm].
      set_solver.
  - rewrite call_func_spec. intros [= _ <- <-]. right. right. simpl.
    rewrite Hm, Hd. split; [done|]. split; [done|].
    split; [set_solver|split; calm].
Qed.

Lemma disk_outcome_hit self a w res w1 evs :
  disk_outcome self a w res w1 evs →
  entry_state (_disk_cached_func self) (f_func_id (_func self))
    (hashing_hash a) w = Ok true →
  ∃ o, cached_value (_disk_cached_func self) (f_func_id (_func self))
         (hashing_hash a) w = Some o ∧
       res = Ok (fresh (dom (heap w))) ∧
       w1 = set_heap (<[fresh (dom (heap w)) := o]> (heap w)) w ∧
       evs = (lookup_events (_disk_cached_func self) (f_func_id (_func self))
                (hashing_hash a) w ++
              hit_events (_disk_cached_func self) a w)%list.
Proof. inversion 1; subst; intros; try congruence. eauto 10. Qed.

Lemma mem_outcome_hit self a w res w1 evs :
  mem_outcome self a w res w1 evs →
  entry_state (_memory_cached_func self) (f_func_id (_func self))
    (hashing_hash a) w = Ok true →
  ∃ o, cached_value (_memory_cached_func self) (f_func_id (_func self))
         (hashing_hash a) w = Some o ∧
       res = Ok (fresh (dom (heap w))) ∧
       w1 = set_heap (<[fresh (dom (heap w)) := o]> (heap w)) w ∧
       evs = (lookup_events (_memory_cached_func self) (f_func_id (_func self))
                (hashing_hash a) w ++
              hit_events (_memory_cached_func self) a w)%list.
Proof. inversion 1; subst; intros; try congruence. eauto 10. Qed.

Lemma disk_outcome_caching self a w res w1 evs :
  disk_outcome self a w res w1 evs → _USE_CACHING w1 = _USE_CACHING w.
Proof.
  inversion 1 as [| |? ? ? ? ? ? Hset|? ? ? ? ? ? Hset]; subst; try done;
    by destruct Hset as (-> & _).
Qed.

Lemma mem_outcome_caching self a w res w1 evs :
  mem_outcome self a w res w1 evs → _USE_CACHING w1 = _USE_CACHING w.
Proof.
  inversion 1 as [| |? ? ? ? ? ? Hd Hset| ? ? ? ? ? Hd
                  |? ? ? ? ? ? Hset|? ? ? ? ? ? Hset]; subst; try done.
  - destruct Hset as (-> & _). by apply disk_outcome_caching in Hd.
  - by apply disk_outcome_caching in Hd.
  - by destruct Hset as (-> & _).
  - by destruct Hset as (-> & _).
Qed.

Lemma execute_func_caching self a w res w1 evs :
  _execute_func self a w = (res, w1, evs) → _USE_CACHING w1 = _USE_CACHING w.
Proof.
  unfold _execute_func.
  destruct (_use_mem_cache self); [|destruct (_use_disk_cache self)].
  - intros Hm%execute_from_mem_inv. by eapply mem_outcome_caching.
  - intros Hd%execute_from_disk_inv. by eapply disk_outcome_caching.
  - rewrite call_func_spec. by intros [= _ <- _].
Qed.

Lemma not_in_dom_insert (h : gmap positive Obj) r r' o :
  r ∉ dom (<[r' := o]> h) → r ∉ dom h.
Proof.
  intros Hf Hin. apply Hf. apply elem_of_dom. apply elem_of_dom in Hin.
  rewrite lookup_insert. by case_decide.
Qed.

(** A call that finds a valid entry in its first backend returns a new
    object holding the stored value. *)
Lemma call_hit_mem self a w o :
  _USE_CACHING w = true → _use_mem_cache self = true →
  entry_state (_memory_cached_func self) (f_func_id (_func self))
    (hashing_hash a) w = Ok true →
  cached_value (_memory_cached_func self) (f_func_id (_func self))
    (hashing_hash a) w = Some o →
  ∃ r2 w2 evs2,
    __call__ self a w = (Ok r2, w2, evs2) ∧
    heap w2 !! r2 = Some o ∧ (r2 ∉ dom (heap w)) ∧
    served_from_mem self a evs2 ∧
    _last_used_mem_cache w2 = true.
Proof.
  intros Hc Hum Hs Ho. rewrite call_enabled by done.
  destruct (_execute_func self a _) as [[res w1] evs] eqn:Hex.
  unfold _execute_func in Hex. rewrite Hum in Hex.
  apply execute_from_mem_inv in Hex.
  apply mem_outcome_hit in Hex as (o' & Ho' & -> & -> & ->); [|done].
  change (cached_value (_memory_cached_func self) (f_func_id (_func self))
            (hashing_hash a) w = Some o') in Ho'.
  simplify_eq. simpl. rewrite lookup_insert_eq.
  eexists _, _, _. split; [done|]. simpl. rewrite lookup_insert_eq.
  split; [done|]. split.
  { pose proof (is_fresh (dom (<[fresh (dom (heap w)):=o]> (heap w)))) as Hf.
    by apply not_in_dom_insert in Hf. }
  split; [|done].
  split; [|split; calm].
  apply elem_of_app. right. apply (hit_events_load (_memory_cached_func self)).
Qed.

Lemma call_hit_disk self a w o :
  _USE_CACHING w = true → _use_mem_cache self = false →
  _use_disk_cache self = true →
  entry_state (_disk_cached_func self) (f_func_id (_func self))
    (hashing_hash a) w = Ok true →
  cached_value (_disk_cached_func self) (f_func_id (_func self))
    (hashing_hash a) w = Some o →
  ∃ r2 w2 evs2,
    __call__ self a w = (Ok r2, w2, evs2) ∧
    heap w2 !! r2 = Some o ∧ (r2 ∉ dom (heap w)) ∧
    served_from_disk self a evs2.
Proof.
  intros Hc Hum Hud Hs Ho. rewrite call_enabled by done.
  destruct (_execute_func self a _) as [[res w1] evs] eqn:Hex.
  unfold _execute_func in Hex. rewrite Hum, Hud in Hex.
  apply execute_from_disk_inv in Hex.
  apply disk_outcome_hit in Hex as (o' & Ho' & -> & -> & ->); [|done].
  change (cached_value (_disk_cached_func self) (f_func_id (_func self))
            (hashing_hash a) w = Some o') in Ho'.
  simplify_eq. simpl. rewrite lookup_insert_eq.
  eexists _, _, _. split; [done|]. simpl. rewrite lookup_insert_eq.
  split; [done|]. split.
  { pose proof (is_fresh (dom (<[fresh (dom (heap w)):=o]> (heap w)))) as Hf.
    by apply not_in_dom_insert in Hf. }
  split; [|split; calm].
  apply elem_of_app. right. apply (hit_events_load (_disk_cached_func self)).
Qed.

(** After a call through the memory level the memory store holds a valid
    entry with the value of the object that is handed to [deepcopy]. *)
Lemma execute_func_mem_valid self a w obj w1 evs :
  _use_mem_cache self = true →
  _execute_func self a w = (Ok obj, w1, evs) →
  valid_with (_memory_cached_func self) a w1 obj.
Proof.
  intros Hum. unfold _execute_func. rewrite Hum.
  intros Hm%execute_from_mem_inv.
  inversion Hm as [o Hs Ho| | | | |]; subst; try done.
  split; [done|]. exists o. split; [done|]. simpl. by rewrite lookup_insert_eq.
Qed.

Lemma execute_func_disk_valid self a w obj w1 evs :
  _use_mem_cache self = false → _use_disk_cache self = true →
  _execute_func self a w = (Ok obj, w1, evs) →
  valid_with (_disk_cached_func self) a w1 obj.
Proof.
  intros Hum Hud. unfold _execute_func. rewrite Hum, Hud.
  intros Hd%execute_from_disk_inv. by eapply disk_outcome_valid.
Qed.

Lemma exec_count_app (l1 l2 : list (@Event Args)) :
  exec_count (l1 ++ l2) = (exec_count l1 + exec_count l2)%nat.
Proof. unfold exec_count. by rewrite filter_app, length_app. Qed.

Lemma exec_count_calm (l : list (@Event Args)) :
  Forall (λ e, is_exec e = false) l → exec_count l = 0%nat.
Proof.
  unfold exec_count. induction 1 as [|e l He _ IH]; [done|].
  rewrite filter_cons. destruct (decide _); [congruence|done].
Qed.

Ltac count0 := apply exec_count_calm; unfold quiet in *; calm_list.

Lemma disk_outcome_exec_count self a w res w1 evs :
  disk_outcome self a w res w1 evs → (exec_count evs ≤ 1)%nat.
Proof.
  inversion 1; subst; rewrite ?exec_count_app.
  - replace (exec_count (lookup_events _ _ _ _)) with 0%nat
      by (symmetry; count0).
    replace (exec_count (hit_events _ _ _)) with 0%nat
      by (symmetry; count0). lia.
  - replace (exec_count (lookup_events _ _ _ _)) with 0%nat
      by (symmetry; count0). lia.
  - replace (exec_count pre) with 0%nat by (symmetry; count0). done.
  - replace (exec_count pre) with 0%nat by (symmetry; count0). done.
Qed.

Lemma mem_outcome_exec_count self a w res w1 evs :
  mem_outcome self a w res w1 evs → (exec_count evs ≤ 1)%nat.
Proof.
  inversion 1 as [| |? ? ? ? ? ? Hd| ? ? ? ? ? Hd| |]; subst;
    rewrite ?exec_count_app;
    try (apply disk_outcome_exec_count in Hd);
    try replace (exec_count (lookup_events _ _ _ _)) with 0%nat
      by (symmetry; count0);
    try replace (exec_count (hit_events _ _ _)) with 0%nat
      by (symmetry; count0);
    try replace (exec_count pre) with 0%nat by (symmetry; count0);
    try done; try lia.
  change (exec_count [_; _]) with 0%nat. lia.
Qed.

Lemma execute_func_exec_count self a w res w1 evs :
  _execute_func self a w = (res, w1, evs) → (exec_count evs ≤ 1)%nat.
Proof.
  unfold _execute_func.
  destruct (_use_mem_cache self); [|destruct (_use_disk_cache self)].
  - intros Hm%execute_from_mem_inv. by eapply mem_outcome_exec_count.
  - intros Hd%execute_from_disk_inv. by eapply disk_outcome_exec_count.
  - rewrite call_func_spec. by intros [= _ _ <-].
Qed.

Lemma call_inv self a w r w' evs :
  _USE_CACHING w = true →
  __call__ self a w = (Ok r, w', evs) →
  ∃ obj w1 o,
    _execute_func self a (reset_tracing self w) = (Ok obj, w1, evs) ∧
    heap w1 !! obj = Some o ∧
    r = fresh (dom (heap w1)) ∧
    w' = set_heap (<[r := o]> (heap w1)) w1.
Proof.
  intros Hc. rewrite call_enabled by done.
  destruct (_execute_func self a _) as [[[obj|e] w1] evs1] eqn:Hex; [|done].
  destruct (heap w1 !! obj) as [o|] eqn:Ho; [|done].
  intros [= <- <- <-]. eauto 10.
Qed.

Lemma execute_func_mem_dump self a w obj w1 evs :
  _use_mem_cache self = true →
  entry_state (_memory_cached_func self) (f_func_id (_func self))
    (hashing_hash a) w = Ok false →
  _execute_func self a w = (Ok obj, w1, evs) →
  EvDump "mem" (f_func_id (_func self)) (hashing_hash a) ∈ evs.
Proof.
  intros Hum Hs. unfold _execute_func. rewrite Hum.
  intros Hm%execute_from_mem_inv.
  inversion Hm; subst; try congruence; set_solver.
Qed.

Lemma last_cache_accessed_run w :
  get_last_cache_accessed (Args:=Args) w =
  (Ok (if _last_used_mem_cache w then "mem"
       else if _last_used_disk_cache w then "disk" else "no_cache"), w, []).
Proof. done. Qed.


Lemma repeated_call_hits_memory self a w r w' evs :
  _USE_CACHING w = true → _use_mem_cache self = true →
  __call__ self a w = (Ok r, w', evs) →
  ∃ r2 w2 evs2,
    __call__ self a w' = (Ok r2, w2, evs2) ∧
    get_last_cache_accessed (Args:=Args) w2 = (Ok "mem", w2, []) ∧
    served_from_mem self a evs2 ∧
    heap w2 !! r2 = heap w' !! r.
Proof.
  intros Hc Hum Hcall.
  apply call_inv in Hcall as (obj & w1 & o & Hex & Ho & -> & ->); [|done].
  pose proof (execute_func_caching _ _ _ _ _ _ Hex) as Hc1.
  pose proof (execute_func_mem_valid _ _ _ _ _ _ Hum Hex)
    as (Hv & o' & Hcv & Ho').
  assert (o' = o) as -> by congruence.
  set (w' := set_heap _ w1).
  destruct (call_hit_mem self a w' o) as (r2 & w2 & evs2 & Hcall2 & Hr2 & _ &
    Hserved & Hlast); try done.
  { simpl. by rewrite Hc1. }
  exists r2, w2, evs2. split; [done|].
  rewrite last_cache_accessed_run, Hlast. split; [done|]. split; [done|].
  subst w'. simpl. by rewrite lookup_insert_eq.
Qed.



Lemma entry_state_mem_flag mf fid aid b w :
  entry_state mf fid aid (set_last_used_mem_cache b w) =
  entry_state mf fid aid w.
Proof. done. Qed.
Lemma entry_state_disk_flag mf fid aid b w :
  entry_state mf fid aid (set_last_used_disk_cache b w) =
  entry_state mf fid aid w.
Proof. done. Qed.
Lemma entry_state_heap mf fid aid h w :
  entry_state mf fid aid (set_heap h w) = entry_state mf fid aid w.
Proof. done. Qed.

Lemma call_events self a w res w' evs :
  _USE_CACHING w = true →
  __call__ self a w = (res, w', evs) →
  ∃ res1 w1,
    _execute_func self a (reset_tracing self w) = (res1, w1, evs) ∧
    ∀ r, res = Ok r → ∃ obj, res1 = Ok obj.
Proof.
  intros Hc. rewrite call_enabled by done.
  destruct (_execute_func self a _) as [[[obj|e] w1] evs1] eqn:Hex.
  - destruct (heap w1 !! obj); intros [= <- <- <-]; eauto.
  - intros [= <- <- <-]. eexists _, _. split; [done|]. by intros.
Qed.


Lemma disk_outcome_no_mem_load self a w res w1 evs :
  disk_outcome self a w res w1 evs → ¬ loaded_from "mem" evs.
Proof. inversion 1; subst; calm. Qed.

Lemma disk_outcome_stale self a w res w1 evs :
  disk_outcome self a w res w1 evs →
  entry_state (_disk_cached_func self) (f_func_id (_func self))
    (hashing_hash a) w ≠ Ok true →
  ¬ loaded_from "disk" evs.
Proof. inversion 1; subst; intros; try congruence; calm. Qed.

Lemma execute_func_mem_stale self a w res w1 evs :
  entry_state (_memory_cached_func self) (f_func_id (_func self))
    (hashing_hash a) w ≠ Ok true →
  _execute_func self a w = (res, w1, evs) →
  ¬ loaded_from "mem" evs.
Proof.
  intros Hs. unfold _execute_func.
  destruct (_use_mem_cache self); [|destruct (_use_disk_cache self)].
  - intros Hm%execute_from_mem_inv.
    inversion Hm as [| |? ? ? ? ? ? Hd| ? ? ? ? ? Hd| |]; subst;
      try congruence; try (apply disk_outcome_no_mem_load in Hd);
      try calm.
    + intros [Hl|[Hl|Hl]%loaded_from_app]%loaded_from_app; try done;
        revert Hl; calm.
    + intros [Hl|Hl]%loaded_from_app; try done. revert Hl; calm.
  - intros Hd%execute_from_disk_inv. by eapply disk_outcome_no_mem_load.
  - rewrite call_func_spec. intros [= _ _ <-]. calm.
Qed.

Lemma execute_func_disk_stale self a w res w1 evs :
  entry_state (_disk_cached_func self) (f_func_id (_func self))
    (hashing_hash a) w ≠ Ok true →
  _execute_func self a w = (res, w1, evs) →
  ¬ loaded_from "disk" evs.
Proof.
  intros Hs. unfold _execute_func.
  destruct (_use_mem_cache self); [|destruct (_use_disk_cache self)].
  - intros Hm%execute_from_mem_inv.
    inversion Hm as [| |? ? ? ? ? ? Hd| ? ? ? ? ? Hd| |]; subst;
      try (apply disk_outcome_stale in Hd; [|done]); try calm.
    + intros [Hl|[Hl|Hl]%loaded_from_app]%loaded_from_app; try done;
        revert Hl; calm.
    + intros [Hl|Hl]%loaded_from_app; try done. revert Hl; calm.
  - intros Hd%execute_from_disk_inv. by eapply disk_outcome_stale.
  - rewrite call_func_spec. intros [= _ _ <-]. calm.
Qed.

Lemma call_no_load self a w res w' evs c :
  (∀ res1 w1, _execute_func self a (reset_tracing self w) = (res1, w1, evs) →
     ¬ loaded_from c evs) →
  __call__ self a w = (res, w', evs) → ¬ loaded_from c evs.
Proof.
  intros Hex. destruct (_USE_CACHING w) eqn:Hc.
  - intros (res1 & w1 & Hex1 & _)%call_events; [|done]. by eapply Hex.
  - rewrite call_disabled, call_func_spec by done. intros [= _ _ <-]. calm.
Qed.

(** C2: for a cache type whose backend holds an item for the digests of the
    function and of the arguments, next to the source [c] it was computed
    from: when the function is not registered under joblib's hash and its
    current source differs from [c], [_has_cached_version] returns [False],
    no call loads the stale item from that backend and joblib recomputes
    the value; when the stored source is the current one,
    [_has_cached_version] returns [True]. *)
Theorem changed_source_invalidates_entry self cache_type cache a w c n :
  let func_id := f_func_id (_func self) in
  let args_id := hashing_hash a in
  (_get_cache self cache_type w).1.1 = Ok cache →
  (contains_item cache func_id args_id w).1.1 = Ok true →
  (get_cached_func_code cache func_id w).1.1 = Ok (c, n) →
  (_FUNCTION_HASHES w !! f_obj (_func self) ≠ Some (_hash_func cache) →
   c ≠ f_code (_func self) →
   (_has_cached_version self cache_type func_id args_id w).1.1 = Ok false ∧
   (∀ res w' evs, __call__ self a w = (res, w', evs) →
      ¬ loaded_from cache_type evs) ∧
   (∀ res w' evs, mf__call__ cache a w = (res, w', evs) →
      executed evs ∧ ¬ loaded_from cache_type evs)) ∧
  (c = f_code (_func self) →
   (_has_cached_version self cache_type func_id args_id w).1.1 = Ok true).
Proof.
  intros func_id args_id Hcache Hitem Hcode.
  assert (Hst : ∀ mf, func mf = _func self →
    (contains_item mf func_id args_id w).1.1 = Ok true →
    (get_cached_func_code mf func_id w).1.1 = Ok (c, n) →
    (_FUNCTION_HASHES w !! f_obj (_func self) ≠ Some (_hash_func mf) →
     c ≠ f_code (_func self) →
     entry_state mf func_id args_id w = Ok false) ∧
    (c = f_code (_func self) → entry_state mf func_id args_id w = Ok true)).
  { intros mf Hf. unfold contains_item, get_cached_func_code, entry_state,
      has_item, stored_code, in_FUNCTION_HASHES. mrun.
    destruct (lookup_dir _ _ _) as [d|]; simpl; [|done].
    intros [= ->]. destruct (func_code_py d) as [c'|]; simpl; [|done].
    intros [= ->]. simpl. split.
    - intros Hh Hne. destruct (_FUNCTION_HASHES w !! _) as [h|] eqn:Hl.
      + rewrite bool_decide_eq_false_2 by congruence.
        by rewrite bool_decide_eq_false_2.
      + by rewrite bool_decide_eq_false_2.
    - intros ->. rewrite (bool_decide_eq_true_2 (_ = _)) by done.
      by destruct (match _ with Some _ => _ | None => _ end). }
  unfold _get_cache in Hcache.
  destruct (decide (cache_type = "mem")) as [->|Hnm].
  - injection Hcache as <-.
    destruct (Hst (_memory_cached_func self) eq_refl Hitem Hcode)
      as [Hstale Hfresh].
    rewrite has_cached_mem. simpl. split; [|done].
    intros Hh Hne. specialize (Hstale Hh Hne).
    split; [done|]. split.
    + intros res w' evs. apply call_no_load. intros res1 w1.
      apply execute_func_mem_stale.
      unfold reset_tracing. rewrite entry_state_mem_flag,
        entry_state_disk_flag. fold func_id args_id. congruence.
    + intros res w' evs Hc.
      eapply cached_call_miss in Hc as (pre & Hq & _ & HOk & HRaise);
        [|simpl; fold func_id args_id; congruence].
      destruct res as [r|e].
      * destruct (HOk r eq_refl) as (-> & _).
        split; [exists (f_obj (_func self)), a; set_solver|calm].
      * rewrite (HRaise e eq_refl).
        split; [exists (f_obj (_func self)), a; set_solver|calm].
  - destruct (decide (cache_type = "disk")) as [->|Hnd]; [|done].
    injection Hcache as <-.
    destruct (Hst (_disk_cached_func self) eq_refl Hitem Hcode)
      as [Hstale Hfresh].
    rewrite has_cached_disk. simpl. split; [|done].
    intros Hh Hne. specialize (Hstale Hh Hne).
    split; [done|]. split.
    + intros res w' evs. apply call_no_load. intros res1 w1.
      apply execute_func_disk_stale.
      unfold reset_tracing. rewrite entry_state_mem_flag,
        entry_state_disk_flag. fold func_id args_id. congruence.
    + intros res w' evs Hc.
      eapply cached_call_miss in Hc as (pre & Hq & _ & HOk & HRaise);
        [|simpl; fold func_id args_id; congruence].
      destruct res as [r|e].
      * destruct (HOk r eq_refl) as (-> & _).
        split; [exists (f_obj (_func self)), a; set_solver|calm].
      * rewrite (HRaise e eq_refl).
        split; [exists (f_obj (_func self)), a; set_solver|calm].
Qed.


Section global_caches.
Context (git_client_root : string) (abspath : string → string).

Lemma get_cache_run cache_type tag w :
  cache_type = "mem" ∨ cache_type = "disk" →
  get_cache (Args:=Args) git_client_root abspath cache_type tag w =
  match tag, global_cache cache_type w with
  | None, Some c => (Ok c, w, [])
  | None, None =>
      let c := {| memory_id := next_memory_id w;
                  location := abspath (os_path_join
                    (if decide (cache_type = "mem") then _MEMORY_TMPFS_PATH
                     else git_client_root)
                    ("tmp.joblib." +:+ cache_type)) |} in
      (Ok c,
       (if decide (cache_type = "mem") then set_MEMORY_CACHE (Some c)
        else set_DISK_CACHE (Some c))
         (set_next_memory_id (Pos.succ (next_memory_id w)) w), [])
  | Some t, _ =>
      (Ok {| memory_id := next_memory_id w;
             location := abspath (os_path_join
               (if decide (cache_type = "mem") then _MEMORY_TMPFS_PATH
                else git_client_root)
               ("tmp.joblib." +:+ cache_type +:+ "." +:+ t)) |},
       set_next_memory_id (Pos.succ (next_memory_id w)) w, [])
  end.
Proof.
  unfold global_cache.
  intros [-> | ->]; destruct tag as [t|]; simpl;
    unfold get_cache, get_global_cache, get_cache_path, get_cache_name,
      set_global_cache, _check_valid_cache_type, dassert_in, new_Memory;
    mrun; try done.
  - by destruct (_MEMORY_CACHE w).
  - by destruct (_DISK_CACHE w).
Qed.

Lemma get_cache_keeps_global cache_type c ct' tag w :
  global_cache cache_type w = Some c →
  global_cache cache_type
    (get_cache (Args:=Args) git_client_root abspath ct' tag w).1.2 = Some c.
Proof.
  intros Hg.
  destruct (decide (ct' = "mem" ∨ ct' = "disk")) as [Hct|Hct].
  - rewrite get_cache_run by done.
    destruct tag as [t|]; [done|].
    destruct (global_cache ct' w) as [c'|] eqn:Hg'; [done|]. simpl.
    unfold global_cache in *.
    destruct Hct as [-> | ->]; simpl in *;
      destruct (decide (cache_type = "mem")); simpl; congruence.
  - unfold get_cache, _check_valid_cache_type, dassert_in. mrun.
    destruct (decide (ct' ∈ ["mem"; "disk"])) as [Hin|Hin]; [|done].
    destruct Hct. set_solver.
Qed.

Lemma get_caches_keep_global cache_type c calls w :
  global_cache cache_type w = Some c →
  global_cache cache_type (get_caches (Args:=Args) git_client_root abspath calls w) = Some c.
Proof.
  revert w. induction calls as [|[ct' tag] calls IH]; intros w Hg; [done|].
  simpl. apply IH. by apply get_cache_keeps_global.
Qed.

Lemma init_globals (f : @Func Args Obj) m d v w c w1 e :
  Cached__init__ git_client_root abspath f m d v None w = (Ok c, w1, e) →
  _DISK_CACHE w1 = Some (_disk_cache c) ∧
  _MEMORY_CACHE w1 = Some (_memory_cache c) ∧
  ∀ dc mc, _DISK_CACHE w = Some dc → _MEMORY_CACHE w = Some mc →
           _DISK_CACHE w1 = Some dc ∧ _MEMORY_CACHE w1 = Some mc.
Proof.
  unfold Cached__init__, _reset_cache_tracing, get_cache, get_global_cache,
    get_cache_path, get_cache_name, set_global_cache, _check_valid_cache_type,
    dassert_in, new_Memory.
  destruct (_DISK_CACHE w) eqn:Hd, (_MEMORY_CACHE w) eqn:Hm; mrun;
    intros [= <- <- <-]; simpl; repeat split; try done; congruence.
Qed.

(** C7: [get_cache(cache_type, None)] is a singleton. The global cache of
    the type, once set, is what every call returns; when it is not set the
    first call builds a backend, installs it, and every later call, after
    any run of [get_cache] calls, returns that same object; with a tag,
    each call builds a new object and leaves the globals alone; two
    [Cached] built with no tag share their memory and their disk
    backend. *)
Theorem global_cache_is_a_singleton cache_type w :
  cache_type = "mem" ∨ cache_type = "disk" →
  (∀ c, global_cache cache_type w = Some c →
     get_cache (Args:=Args) git_client_root abspath cache_type None w =
     (Ok c, w, [])) ∧
  (global_cache cache_type w = None →
   ∃ c w',
     get_cache (Args:=Args) git_client_root abspath cache_type None w =
       (Ok c, w', []) ∧
     memory_id c = next_memory_id w ∧
     global_cache cache_type w' = Some c ∧
     ∀ calls,
       get_cache (Args:=Args) git_client_root abspath cache_type None
         (get_caches (Args:=Args) git_client_root abspath calls w') =
       (Ok c, get_caches (Args:=Args) git_client_root abspath calls w',
        [])) ∧
  (∀ t, ∃ c w',
     get_cache (Args:=Args) git_client_root abspath cache_type (Some t) w =
       (Ok c, w', []) ∧
     memory_id c = next_memory_id w ∧
     (next_memory_id w < next_memory_id w')%positive ∧
     _MEMORY_CACHE w' = _MEMORY_CACHE w ∧ _DISK_CACHE w' = _DISK_CACHE w ∧
     ∀ t2 c2 w2 evs2,
       get_cache (Args:=Args) git_client_root abspath cache_type (Some t2) w' =
         (Ok c2, w2, evs2) → c2 ≠ c) ∧
  (∀ (f1 f2 : @Func Args Obj) m1 d1 v1 m2 d2 v2
     (c1 c2 : @Cached Args Obj) w1 e1 w2 e2,
     Cached__init__ git_client_root abspath f1 m1 d1 v1 None w =
       (Ok c1, w1, e1) →
     Cached__init__ git_client_root abspath f2 m2 d2 v2 None w1 =
       (Ok c2, w2, e2) →
     _memory_cache c1 = _memory_cache c2 ∧ _disk_cache c1 = _disk_cache c2).
Proof.
  intros Hct. split; [|split; [|split]].
  - intros c Hg. rewrite get_cache_run by done. by rewrite Hg.
  - intros Hg. rewrite get_cache_run by done. rewrite Hg.
    eexists _, _. split; [done|]. split; [done|].
    assert (Hg' : ∀ c w0,
      global_cache cache_type
        ((if decide (cache_type = "mem") then set_MEMORY_CACHE (Some c)
          else set_DISK_CACHE (Some c)) w0) = Some c).
    { intros c w0. unfold global_cache.
      by destruct (decide (cache_type = "mem")). }
    split; [apply Hg'|].
    intros calls. rewrite get_cache_run by done.
    by erewrite get_caches_keep_global by apply Hg'.
  - intros t. rewrite get_cache_run by done. eexists _, _.
    split; [done|]. simpl. split; [done|]. split; [lia|].
    split; [done|]. split; [done|].
    intros t2 c2 w2 evs2. rewrite get_cache_run by done. simpl.
    intros [= <- _ _] [= Heq _]. lia.
  - intros f1 f2 m1 d1 v1 m2 d2 v2 c1 c2 w1 e1 w2 e2 H1 H2.
    apply init_globals in H1 as (Hd1 & Hm1 & _).
    apply init_globals in H2 as (Hd2 & Hm2 & Hkeep).
    destruct (Hkeep _ _ Hd1 Hm1) as [Hd Hm]. split; congruence.
Qed.

End global_caches.

(** ** More of [helpers/cache.py] *)

Lemma served_flag self a w obj w1 evs :
  _last_used_mem_cache w = _use_mem_cache self →
  _last_used_disk_cache w = _use_disk_cache self →
  _execute_func self a w = (Ok obj, w1, evs) →
  served_from_disk self a evs →
  _last_used_mem_cache w1 = false ∧ _last_used_disk_cache w1 = true.
Proof.
  intros Hm Hd Hex (Hload & Hne & Hnm).
  apply execute_func_served in Hex; [|done..].
  destruct Hex as [(_ & _ & _ & Hnd)|[(? & ? & _)|(_ & _ & Hexec & _)]].
  - destruct Hnd. by eexists _, _.
  - done.
  - destruct Hne. by eexists _, _.
Qed.


(** X1: a level that is switched off is never touched. A call with
    [use_mem_cache=False] does nothing on the memory store, a call with
    [use_disk_cache=False] nothing on the disk store; with both off, or
    with caching globally disabled, the call only executes the function
    and leaves the stores and joblib's function hashes as they were. *)
Theorem unused_level_is_never_touched self a w res w' evs :
  __call__ self a w = (res, w', evs) →
  (_use_mem_cache self = false → ¬ touches "mem" evs) ∧
  (_use_disk_cache self = false → ¬ touches "disk" evs) ∧
  (_USE_CACHING w = false ∨
   _use_mem_cache self = false ∧ _use_disk_cache self = false →
   evs = [EvExec (f_obj (_func self)) a] ∧
   fs w' = fs w ∧ _FUNCTION_HASHES w' = _FUNCTION_HASHES w).
Proof.
  intros Hcall. destruct (_USE_CACHING w) eqn:Hc.
  - apply call_events in Hcall as Hex; [|done].
    destruct Hex as (res1 & w1 & Hex & _).
    unfold _execute_func in Hex.
    destruct (_use_mem_cache self) eqn:Hum;
      [|destruct (_use_disk_cache self) eqn:Hud].
    + split; [done|]. split; [|intros [?|[? ?]]; congruence].
      intros Hud. apply execute_from_mem_inv in Hex.
      inversion Hex; subst; try congruence; calm.
    + split; [|split; [done|intros [?|[? ?]]; congruence]].
      intros _. apply execute_from_disk_inv in Hex.
      inversion Hex; subst; calm.
    + rewrite call_func_spec in Hex.
      assert (evs = [EvExec (f_obj (_func self)) a]) as -> by congruence.
      split; [intros _; calm|]. split; [intros _; calm|]. intros _.
      split; [done|].
      rewrite call_enabled in Hcall by done. unfold _execute_func in Hcall.
      rewrite Hum, Hud, call_func_spec in Hcall.
      destruct (f_body _ _ _) as [[obj|e] h']; simpl in Hcall.
      * destruct (h' !! obj); by injection Hcall as _ <-.
      * by injection Hcall as _ <-.
  - rewrite call_disabled, call_func_spec in Hcall by done.
    injection Hcall as _ <- <-.
    split; [intros _; calm|]. split; [intros _; calm|]. done.
Qed.

Lemma cached_call_raise mf a w e w' evs :
  _cached_call mf a w = (Raise e, w', evs) →
  (f_body (func mf) a (heap w)).1 = Raise e.
Proof.
  destruct (check_previous_spec mf w)
    as (b & w1 & e1 & Hchk & _ & _ & Hheap & _ & _).
  assert (Hmf : ∀ w2 w3 e2, heap w2 = heap w →
            mf_call mf a w2 = (Raise e, w3, e2) →
            (f_body (func mf) a (heap w)).1 = Raise e).
  { intros w2 w3 e2 <-.
    unfold mf_call, call_func, dump_item, _get_output_identifiers.
    destruct (f_body (func mf) a (heap w2)) as [[r|e'] h'] eqn:Hb.
    - destruct (f_live _ _ _ _ _ Hb) as [o Ho]. by mrun.
    - mrun. by intros [= <- <- <-]. }
  unfold _cached_call. simpl. rewrite (bind_Ok _ _ _ _ _ _ Hchk).
  destruct b.
  - unfold contains_item, load_item. run.
    destruct (lookup_dir _ _ w1) as [d|] eqn:Hd; simpl.
    + destruct (items d !! hashing_hash a) as [o|] eqn:Hi; simpl.
      * rewrite Hd. simpl. rewrite Hi. unfold alloc. by mrun.
      * destruct (mf_call mf a w1) as [[res1 w2] e2] eqn:Hcall.
        intros [= -> <- <-]. by eapply Hmf.
    + destruct (mf_call mf a w1) as [[res1 w2] e2] eqn:Hcall.
      intros [= -> <- <-]. by eapply Hmf.
  - run. destruct (mf_call mf a w1) as [[res1 w2] e2] eqn:Hcall.
    intros [= -> <- <-]. by eapply Hmf.
Qed.

Lemma entry_state_raise mf fid aid w e :
  entry_state mf fid aid w = Raise e → e = IOError.
Proof. unfold entry_state. repeat case_match; congruence. Qed.

Lemma execute_from_disk_raise self a w e w' evs :
  _execute_func_from_disk_cache self a w = (Raise e, w', evs) →
  (f_body (_func self) a (heap w)).1 = Raise e ∧ executed evs ∨
  e = IOError ∧ ¬ executed evs.
Proof.
  intros Hex. pose proof (execute_from_disk_inv _ _ _ _ _ _ Hex) as Hout.
  inversion Hout as [|? Hs| |pre ? ? Hs Hq Hin Hset]; subst.
  - right. split; [by eapply entry_state_raise|]. calm.
  - left. split; [|exists (f_obj (_func self)), a; set_solver].
    revert Hex.
    unfold _execute_func_from_disk_cache, _get_identifiers, _get_cache,
      mf__call__.
    simpl. unfold bind at 1. simpl. unfold bind at 1.
    rewrite has_cached_disk, Hs. run.
    destruct (_cached_call _ a _) as [[res1 w1] e1] eqn:Hc.
    intros [= -> <- _]. by apply cached_call_raise in Hc.
Qed.

Lemma executed_app (l1 l2 : list (@Event Args)) :
  executed (l1 ++ l2) ↔ executed l1 ∨ executed l2.
Proof.
  unfold executed. setoid_rewrite elem_of_app. naive_solver.
Qed.

Lemma execute_from_mem_raise self a w e w' evs :
  _execute_func_from_mem_cache self a w = (Raise e, w', evs) →
  (f_body (_func self) a (heap w)).1 = Raise e ∧ executed evs ∨
  e = IOError ∧ ¬ executed evs.
Proof.
  unfold _execute_func_from_mem_cache, _get_identifiers, _get_cache,
    mf__call__.
  simpl. unfold bind at 1. simpl. unfold bind at 1.
  rewrite has_cached_mem.
  destruct (entry_state _ _ _ w) as [[|]|e'] eqn:Hs.
  - destruct (cached_call_hit (_memory_cached_func self) a w Hs)
      as (o & Ho & Hc).
    by mrun.
  - assert (Hquiet : ¬ executed (lookup_events (_memory_cached_func self)
                          (f_func_id (_func self)) (hashing_hash a) w))
      by calm.
    unfold bind at 1. unfold modify at 1. unfold bind at 1.
    destruct (_use_disk_cache self).
    + destruct (_execute_func_from_disk_cache self a _)
        as [[[obj|e1] w1] e2] eqn:Hd.
      * apply execute_from_disk_inv in Hd as Hout.
        apply disk_outcome_valid in Hout as (_ & o & _ & Ho).
        destruct (store_cached_mem self a obj o w1 Ho) as (w2 & Hst & _).
        by rewrite (bind_Ok _ _ _ _ _ _ Hst).
      * intros [= -> <- <-]. simpl.
        rewrite !executed_app.
        apply execute_from_disk_raise in Hd as [[Hb Hx]|[-> Hx]];
          [left|right]; (split; [done|]); tauto.
    + destruct (_cached_call (_memory_cached_func self) a _)
        as [[[obj|e1] w1] e2] eqn:Hc.
      * eapply cached_call_miss in Hc as (pre & _ & _ & HOk & _);
          [|rewrite entry_state_mem_flag; simpl in *; congruence].
        destruct (HOk obj eq_refl) as (_ & _ & o & _ & Ho).
        destruct (store_cached_mem self a obj o w1 Ho) as (w2 & Hst & _).
        by rewrite (bind_Ok _ _ _ _ _ _ Hst).
      * intros [= -> <- <-]. left.
        split; [by apply cached_call_raise in Hc|].
        eapply cached_call_miss in Hc as (pre & _ & _ & _ & HRaise);
          [|rewrite entry_state_mem_flag; simpl in *; congruence].
        rewrite (HRaise e eq_refl). simpl.
        exists (f_obj (_func self)), a. set_solver.
  - intros [= <- <- <-]. right. split; [by eapply entry_state_raise|]. calm.
Qed.

Lemma execute_func_raise self a w e w' evs :
  _execute_func self a w = (Raise e, w', evs) →
  (f_body (_func self) a (heap w)).1 = Raise e ∧ executed evs ∨
  e = IOError ∧ ¬ executed evs.
Proof.
  unfold _execute_func.
  destruct (_use_mem_cache self); [apply execute_from_mem_raise|].
  destruct (_use_disk_cache self); [apply execute_from_disk_raise|].
  rewrite call_func_spec. intros [= ? _ <-]. left. split; [done|].
  exists (f_obj (_func self)), a. set_solver.
Qed.

Lemma disk_outcome_raise_events self a w e w1 evs :
  disk_outcome self a w (Raise e) w1 evs →
  Forall (λ ev, match ev with
                | EvDump _ _ _ | EvLoad _ _ _ => False
                | _ => True
                end) evs.
Proof. inversion 1; subst; unfold quiet in *; calm_list. Qed.

Lemma mem_outcome_raise_events self a w e w1 evs :
  mem_outcome self a w (Raise e) w1 evs →
  Forall (λ ev, match ev with
                | EvDump _ _ _ | EvLoad _ _ _ => False
                | _ => True
                end) evs.
Proof.
  inversion 1 as [| | |? ? ? ? ? Hd| |]; subst; unfold quiet in *;
    try calm_list.
  apply disk_outcome_raise_events in Hd. calm_list.
Qed.

Lemma execute_func_raise_events self a w e w1 evs :
  _execute_func self a w = (Raise e, w1, evs) →
  Forall (λ ev, match ev with
                | EvDump _ _ _ | EvLoad _ _ _ => False
                | _ => True
                end) evs.
Proof.
  unfold _execute_func.
  destruct (_use_mem_cache self); [|destruct (_use_disk_cache self)].
  - intros Hex. apply execute_from_mem_inv in Hex.
    by eapply mem_outcome_raise_events.
  - intros Hex. apply execute_from_disk_inv in Hex.
    by eapply disk_outcome_raise_events.
  - rewrite call_func_spec. intros [= _ _ <-]. repeat constructor.
Qed.


Lemma store_cached_disk self (a : Args) obj o w :
  heap w !! obj = Some o →
  ∃ w',
    _store_cached_version self "disk" (f_func_id (_func self))
      (hashing_hash a) obj w =
    (Ok tt, w',
     [EvWriteCode "disk" (f_func_id (_func self));
      EvDump "disk" (f_func_id (_func self)) (hashing_hash a)]) ∧
    same_settings w w' ∧ heap w' = heap w ∧
    valid_with (_disk_cached_func self) a w' obj.
Proof.
  intros Ho.
  unfold _store_cached_version, _get_cache, _write_func_code, dump_item,
    store_cached_func_code, get_func_code, valid_with.
  destruct (f_named (_func self)) eqn:Hn;
    (eexists; split; [by mrun|]).
  all: split; [done|]; split; [done|].
  all: split; [|exists o; split; [|done]; unfold cached_value;
                rewrite lookup_dir_update; simpl; by rewrite lookup_insert_eq].
  all: apply entry_state_true; split;
    [unfold has_item; rewrite lookup_dir_update; simpl;
     apply bool_decide_eq_true_2; rewrite lookup_insert_eq; eauto|].
  - left. unfold in_FUNCTION_HASHES. simpl. rewrite lookup_insert_eq.
    by apply bool_decide_eq_true_2.
  - right. unfold stored_code. rewrite lookup_dir_update. simpl.
    rewrite lookup_dir_update. simpl. eauto.
Qed.

Lemma load_item_value mf fid aid w o :
  cached_value mf fid aid w = Some o →
  ∃ r w',
    load_item mf fid aid w = (Ok r, w', [EvLoad (mf_name mf) fid aid]) ∧
    heap w' !! r = Some o ∧ r ∉ dom (heap w).
Proof.
  unfold cached_value, load_item, alloc. intros Hv.
  eexists _, _. split; [by mrun|]. simpl.
  split; [by rewrite lookup_insert_eq|]. apply is_fresh.
Qed.


Lemma has_item_update loc fid g mf fid' aid w :
  (∀ d, items (g d) = items d) →
  has_item mf fid' aid (update_dir loc fid g w) = has_item mf fid' aid w.
Proof.
  intros Hg. unfold has_item, lookup_dir, update_dir. simpl.
  destruct (decide (store_location mf = loc)) as [->|Hl].
  - rewrite lookup_total_insert_eq.
    destruct (decide (fid' = fid)) as [->|Hf].
    + rewrite lookup_insert_eq.
      destruct ((fs w !!! loc) !! fid) as [d|] eqn:Hd; simpl.
      * by rewrite Hg.
      * by rewrite Hg.
    + by rewrite lookup_insert_ne.
  - by rewrite lookup_total_insert_ne.
Qed.

Lemma has_item_hashes mf fid aid h w :
  has_item mf fid aid (set_FUNCTION_HASHES h w) = has_item mf fid aid w.
Proof. done. Qed.

Lemma has_item_remove loc fid mf fid' aid w :
  has_item mf fid' aid (remove_dir loc fid w) =
  if decide (store_location mf = loc ∧ fid' = fid) then false
  else has_item mf fid' aid w.
Proof.
  unfold has_item, lookup_dir, remove_dir. simpl.
  destruct (decide (store_location mf = loc)) as [->|Hl].
  - rewrite lookup_total_insert_eq.
    destruct (decide (fid' = fid)) as [->|Hf].
    + rewrite lookup_delete_eq. by rewrite decide_True.
    + rewrite lookup_delete_ne by done. rewrite decide_False; [done|].
      by intros [_ ?].
  - rewrite lookup_total_insert_ne by done. rewrite decide_False; [done|].
    by intros [? _].
Qed.

Lemma lookup_dir_update_ne loc loc' fid fid' g w :
  loc' ≠ loc →
  lookup_dir loc' fid' (update_dir loc fid g w) = lookup_dir loc' fid' w.
Proof.
  intros Hne. unfold lookup_dir, update_dir. simpl.
  by rewrite lookup_total_insert_ne.
Qed.

Lemma lookup_dir_remove_ne loc loc' fid fid' w :
  loc' ≠ loc →
  lookup_dir loc' fid' (remove_dir loc fid w) = lookup_dir loc' fid' w.
Proof.
  intros Hne. unfold lookup_dir, remove_dir. simpl.
  by rewrite lookup_total_insert_ne.
Qed.

Lemma mf_clear_spec mf w :
  ∃ w' evs,
    mf_clear mf w = (Ok tt, w', evs) ∧
    same_settings w w' ∧ heap w' = heap w ∧
    (∀ mf2 fid aid,
       has_item mf2 fid aid w' =
       if decide (store_location mf2 = store_location mf ∧
                  fid = f_func_id (func mf))
       then false else has_item mf2 fid aid w) ∧
    (∀ mf2, in_FUNCTION_HASHES mf2 w = true → func mf2 = func mf →
            in_FUNCTION_HASHES mf2 w' = true) ∧
    (∀ loc fid, loc ≠ store_location mf →
                lookup_dir loc fid w' = lookup_dir loc fid w).
Proof.
  unfold mf_clear, clear_path, _write_func_code, store_cached_func_code,
    get_func_code.
  destruct (f_named (func mf)) eqn:Hn; eexists _, _; (split; [by mrun|]).
  all: split; [done|]; split; [done|]; split; [|split].
  - intros mf2 fid aid. rewrite has_item_hashes, has_item_update by done.
    apply has_item_remove.
  - intros mf2 _ Hf. unfold in_FUNCTION_HASHES. simpl. rewrite Hf.
    rewrite lookup_insert_eq. unfold _hash_func. rewrite Hf.
    by apply bool_decide_eq_true_2.
  - intros loc fid Hne.
    change (lookup_dir loc fid (update_dir (store_location mf)
              (f_func_id (func mf))
              (λ d, {| func_code_py := Some (f_code (func mf),
                                             f_first_line (func mf));
                       items := items d |})
              (remove_dir (store_location mf) (f_func_id (func mf)) w)) =
            lookup_dir loc fid w).
    by rewrite lookup_dir_update_ne, lookup_dir_remove_ne.
  - intros mf2 fid aid. rewrite has_item_update by done.
    apply has_item_remove.
  - intros mf2 Hin _. done.
  - intros loc fid Hne.
    by rewrite lookup_dir_update_ne, lookup_dir_remove_ne.
Qed.

Lemma entry_state_no_item mf fid aid w :
  has_item mf fid aid w = false → entry_state mf fid aid w = Ok false.
Proof. unfold entry_state. by intros ->. Qed.

Lemma execute_func_miss_executes self a w res w1 evs :
  entry_state (_memory_cached_func self) (f_func_id (_func self))
    (hashing_hash a) w = Ok false →
  entry_state (_disk_cached_func self) (f_func_id (_func self))
    (hashing_hash a) w = Ok false →
  _execute_func self a w = (res, w1, evs) →
  EvExec (f_obj (_func self)) a ∈ evs.
Proof.
  intros Hm Hd. unfold _execute_func.
  assert (Hdisk : ∀ w0 res w1 evs,
            entry_state (_disk_cached_func self) (f_func_id (_func self))
              (hashing_hash a) w0 = Ok false →
            disk_outcome self a w0 res w1 evs →
            EvExec (f_obj (_func self)) a ∈ evs).
  { intros w0 r0 w2 e0 Hs Hout.
    inversion Hout; subst; try congruence; set_solver. }
  destruct (_use_mem_cache self); [|destruct (_use_disk_cache self)].
  - intros Hex. apply execute_from_mem_inv in Hex.
    inversion Hex as [| |? ? ? ? ? ? Hdo| ? ? ? ? ? Hdo| |]; subst;
      try congruence; try set_solver.
    + apply Hdisk in Hdo; [set_solver|]. by rewrite entry_state_mem_flag.
    + apply Hdisk in Hdo; [set_solver|]. by rewrite entry_state_mem_flag.
  - intros Hex. apply execute_from_disk_inv in Hex. by eapply Hdisk.
  - rewrite call_func_spec. intros [= _ _ <-]. set_solver.
Qed.

Lemma call_miss_executes self a w res w' evs :
  entry_state (_memory_cached_func self) (f_func_id (_func self))
    (hashing_hash a) w = Ok false →
  entry_state (_disk_cached_func self) (f_func_id (_func self))
    (hashing_hash a) w = Ok false →
  __call__ self a w = (res, w', evs) →
  EvExec (f_obj (_func self)) a ∈ evs ∧
  ¬ loaded_from "mem" evs ∧ ¬ loaded_from "disk" evs.
Proof.
  intros Hm Hd Hcall. destruct (_USE_CACHING w) eqn:Hc.
  - apply call_events in Hcall as (res1 & w1 & Hex & _); [|done].
    unfold reset_tracing in Hex.
    split; [|split].
    + eapply execute_func_miss_executes in Hex; [done|..].
      * by rewrite entry_state_mem_flag, entry_state_disk_flag.
      * by rewrite entry_state_mem_flag, entry_state_disk_flag.
    + eapply execute_func_mem_stale; [|done].
      rewrite entry_state_mem_flag, entry_state_disk_flag. congruence.
    + eapply execute_func_disk_stale; [|done].
      rewrite entry_state_mem_flag, entry_state_disk_flag. congruence.
  - rewrite call_disabled, call_func_spec in Hcall by done.
    injection Hcall as _ _ <-. split; [set_solver|]. split; calm.
Qed.

(** X5: [clear_cache] forgets. After clearing one level,
    [_has_cached_version] is [False] in that level for every arguments
    digest; after clearing both ([cache_type=None]) it is [False] in both,
    and any next call executes the function and loads nothing. The heap
    and the caching switch are untouched. *)
Theorem clear_cache_forgets self cache_type w :
  cache_type = None ∨ cache_type = Some "mem" ∨ cache_type = Some "disk" →
  ∃ w' evs,
    clear_cache self cache_type w = (Ok tt, w', evs) ∧
    heap w' = heap w ∧ _USE_CACHING w' = _USE_CACHING w ∧
    (∀ ct aid,
       cache_type = Some ct ∨
       cache_type = None ∧ (ct = "mem" ∨ ct = "disk") →
       (_has_cached_version self ct (f_func_id (_func self)) aid w').1.1 =
         Ok false) ∧
    (cache_type = None →
     ∀ a res w2 evs2,
       __call__ self a w' = (res, w2, evs2) →
       EvExec (f_obj (_func self)) a ∈ evs2 ∧
       ¬ loaded_from "mem" evs2 ∧ ¬ loaded_from "disk" evs2).
Proof.
  intros Hct.
  destruct (mf_clear_spec (_memory_cached_func self) w)
    as (wm & em & Hm & Hsm & Hhm & Him & _ & _).
  destruct (mf_clear_spec (_disk_cached_func self) w)
    as (wd & ed & Hd & Hsd & Hhd & Hid & _ & _).
  destruct (mf_clear_spec (_memory_cached_func self) wd)
    as (wdm & edm & Hdm & Hsdm & Hhdm & Hidm & _ & _).
  unfold clear_cache, _get_cache.
  destruct Hct as [->|[->| ->]]; simpl.
  - assert (Him' : ∀ aid, has_item (_memory_cached_func self)
                            (f_func_id (_func self)) aid wdm = false).
    { intros aid. rewrite Hidm. by rewrite decide_True. }
    assert (Hid' : ∀ aid, has_item (_disk_cached_func self)
                            (f_func_id (_func self)) aid wdm = false).
    { intros aid. rewrite Hidm. case_decide; [done|].
      rewrite Hid. by rewrite decide_True. }
    exists wdm, (ed ++ edm)%list. split.
    { unfold bind at 1. unfold ret at 1. unfold bind at 1. rewrite Hd.
      unfold bind at 1. unfold ret at 1. simpl. by rewrite Hdm. }
    split; [congruence|].
    split; [destruct Hsd as [? _], Hsdm as [? _]; congruence|].
    split.
    + intros ct aid [[=]|[_ [->| ->]]].
      * rewrite has_cached_mem. simpl. by apply entry_state_no_item.
      * rewrite has_cached_disk. simpl. by apply entry_state_no_item.
    + intros _ a res w2 evs2.
      apply call_miss_executes; by apply entry_state_no_item.
  - exists wm, em. split.
    { unfold bind at 1. unfold ret at 1. simpl. by rewrite Hm. }
    split; [done|]. split; [by destruct Hsm as [? _]|]. split; [|done].
    intros ct aid [[= <-]|[[=] _]].
    rewrite has_cached_mem. simpl. apply entry_state_no_item.
    rewrite Him. by rewrite decide_True.
  - exists wd, ed. split.
    { unfold bind at 1. unfold ret at 1. simpl. by rewrite Hd. }
    split; [done|]. split; [by destruct Hsd as [? _]|]. split; [|done].
    intros ct aid [[= <-]|[[=] _]].
    rewrite has_cached_disk. simpl. apply entry_state_no_item.
    rewrite Hid. by rewrite decide_True.
Qed.

Lemma call_promotes_from_disk self a w o :
  _USE_CACHING w = true →
  _use_mem_cache self = true → _use_disk_cache self = true →
  entry_state (_memory_cached_func self) (f_func_id (_func self))
    (hashing_hash a) w = Ok false →
  entry_state (_disk_cached_func self) (f_func_id (_func self))
    (hashing_hash a) w = Ok true →
  cached_value (_disk_cached_func self) (f_func_id (_func self))
    (hashing_hash a) w = Some o →
  ∃ r w2 evs2,
    __call__ self a w = (Ok r, w2, evs2) ∧
    served_from_disk self a evs2 ∧
    heap w2 !! r = Some o ∧
    _last_used_mem_cache w2 = false ∧ _last_used_disk_cache w2 = true ∧
    entry_state (_memory_cached_func self) (f_func_id (_func self))
      (hashing_hash a) w2 = Ok true.
Proof.
  intros Hc Hum Hud Hm Hd Hv.
  destruct (_execute_func self a (reset_tracing self w))
    as [[res1 w1] evs] eqn:Hex.
  pose proof Hex as Hex0.
  unfold _execute_func in Hex. rewrite Hum in Hex.
  apply execute_from_mem_inv in Hex.
  unfold reset_tracing in Hex.
  inversion Hex as [? Hs|? Hs|obj wd evs_d w' Hs _ Hdo Hset Hheap Hval|
                    ? wd evs_d Hs _ Hdo|? ? ? Hs Hud'|? ? ? Hs Hud']; subst;
    rewrite ?entry_state_mem_flag, ?entry_state_disk_flag in Hs;
    try congruence.
  - apply disk_outcome_hit in Hdo as (o' & Hv' & [= ->] & -> & ->);
      [|by rewrite !entry_state_mem_flag, !entry_state_disk_flag].
    unfold cached_value in Hv'. simpl in Hv'.
    change (cached_value (_disk_cached_func self) (f_func_id (_func self))
              (hashing_hash a) w = Some o') in Hv'.
    assert (o' = o) as -> by congruence.
    assert (Hserved : served_from_disk self a
              (lookup_events (_memory_cached_func self)
                 (f_func_id (_func self)) (hashing_hash a)
                 (set_last_used_mem_cache (_use_mem_cache self)
                    (set_last_used_disk_cache (_use_disk_cache self) w)) ++
               (lookup_events (_disk_cached_func self)
                  (f_func_id (_func self)) (hashing_hash a)
                  (set_last_used_mem_cache false
                     (set_last_used_mem_cache (_use_mem_cache self)
                        (set_last_used_disk_cache (_use_disk_cache self) w))) ++
                hit_events (_disk_cached_func self) a
                  (set_last_used_mem_cache false
                     (set_last_used_mem_cache (_use_mem_cache self)
                        (set_last_used_disk_cache (_use_disk_cache self) w)))) ++
               [EvWriteCode "mem" (f_func_id (_func self));
                EvDump "mem" (f_func_id (_func self)) (hashing_hash a)])).
    { split; [|split; calm].
      apply elem_of_app. right. apply elem_of_app. left.
      apply elem_of_app. right.
      apply (hit_events_load (_disk_cached_func self)). }
    destruct (served_flag self a (reset_tracing self w) _ _ _ eq_refl eq_refl
                Hex0 Hserved) as [Hfm Hfd].
    destruct Hval as (Hvm & om & Hcm & Hom).
    rewrite Hheap in Hom. simpl in Hom. rewrite lookup_insert_eq in Hom.
    injection Hom as <-.
    rewrite call_enabled, Hex0 by done.
    rewrite Hheap. simpl. rewrite lookup_insert_eq.
    eexists _, _, _. split; [done|]. split; [done|]. simpl.
    rewrite lookup_insert_eq. split; [done|]. split; [done|].
    split; [done|]. by rewrite entry_state_heap.
  - apply disk_outcome_hit in Hdo as (o' & _ & [=] & _);
      by rewrite !entry_state_mem_flag, !entry_state_disk_flag.
Qed.

Lemma has_item_value mf fid aid w :
  has_item mf fid aid w = true → ∃ o, cached_value mf fid aid w = Some o.
Proof.
  unfold has_item, cached_value.
  destruct (lookup_dir _ _ w) as [d|]; [|done]. simpl.
  intros [o Ho]%bool_decide_eq_true_1. eauto.
Qed.


Lemma entry_state_no_source mf fid aid w :
  (contains_item mf fid aid w).1.1 = Ok true →
  (∃ e, (get_cached_func_code mf fid w).1.1 = Raise e) →
  _FUNCTION_HASHES w !! f_obj (func mf) ≠ Some (_hash_func mf) →
  entry_state mf fid aid w = Raise IOError.
Proof.
  unfold contains_item, get_cached_func_code, entry_state, has_item,
    stored_code, in_FUNCTION_HASHES. mrun.
  destruct (lookup_dir _ _ _) as [d|]; simpl; [|done].
  intros [= ->]. destruct (func_code_py d) as [c'|]; simpl;
    [by intros [? ?]|].
  intros _ Hh. destruct (_FUNCTION_HASHES w !! _) as [h|] eqn:Hl; [|done].
  by rewrite bool_decide_eq_false_2 by congruence.
Qed.

(** X7: an entry whose [func_code.py] cannot be read. When the level
    consulted first holds an item for the call, the function is not in
    joblib's hashes and the stored source cannot be read,
    [_has_cached_version] lets the [IOError] through and the call fails
    with it, without executing the function and without touching the
    stores, where joblib's own memoized call would recompute. *)
Theorem entry_without_source_fails self cache_type cache a w :
  cache_type = "mem" ∧ _use_mem_cache self = true ∨
  cache_type = "disk" ∧ _use_mem_cache self = false ∧
    _use_disk_cache self = true →
  _USE_CACHING w = true →
  let func_id := f_func_id (_func self) in
  let args_id := hashing_hash a in
  (_get_cache self cache_type w).1.1 = Ok cache →
  (contains_item cache func_id args_id w).1.1 = Ok true →
  (∃ e, (get_cached_func_code cache func_id w).1.1 = Raise e) →
  _FUNCTION_HASHES w !! f_obj (_func self) ≠ Some (_hash_func cache) →
  (_has_cached_version self cache_type func_id args_id w).1.1 =
    Raise IOError ∧
  (∃ w' evs,
     __call__ self a w = (Raise IOError, w', evs) ∧
     ¬ executed evs ∧ fs w' = fs w) ∧
  (∀ res w' evs, mf__call__ cache a w = (res, w', evs) → executed evs).
Proof.
  intros Hcfg Hc func_id args_id Hcache Hitem Hcode Hhash.
  assert (Hjoblib : ∀ mf, func mf = _func self →
            entry_state mf func_id args_id w = Raise IOError →
            ∀ res w' evs, mf__call__ mf a w = (res, w', evs) → executed evs).
  { intros mf Hf Hs res w' evs Hcall.
    eapply cached_call_miss in Hcall as (pre & _ & _ & HOk & HRaise);
      [|rewrite Hf; fold func_id args_id; congruence].
    exists (f_obj (func mf)), a. destruct res as [r|e].
    - destruct (HOk r eq_refl) as (-> & _). set_solver.
    - rewrite (HRaise e eq_refl). set_solver. }
  rewrite call_enabled by done. unfold _execute_func, _get_cache in *.
  destruct Hcfg as [[-> Hum]|(-> & Hum & Hud)]; simpl in Hcache;
    injection Hcache as <-; rewrite Hum.
  - pose proof (entry_state_no_source _ _ _ _ Hitem Hcode Hhash) as Hs.
    rewrite has_cached_mem. split; [done|]. split; [|by apply Hjoblib].
    destruct (_execute_func_from_mem_cache self a _)
      as [[res1 w1] evs] eqn:Hex.
    apply execute_from_mem_inv in Hex. unfold reset_tracing in Hex.
    inversion Hex as [? Hs'|? Hs'|? ? ? ? Hs'|? ? ? Hs'|? ? ? Hs'|? ? ? Hs'];
      subst;
      rewrite ?entry_state_mem_flag, ?entry_state_disk_flag in Hs';
      fold func_id args_id in Hs'; try congruence.
    assert (e = IOError) as -> by congruence.
    eexists _, _. split; [done|]. split; [calm|done].
  - rewrite Hud.
    pose proof (entry_state_no_source _ _ _ _ Hitem Hcode Hhash) as Hs.
    rewrite has_cached_disk. split; [done|]. split; [|by apply Hjoblib].
    destruct (_execute_func_from_disk_cache self a _)
      as [[res1 w1] evs] eqn:Hex.
    apply execute_from_disk_inv in Hex. unfold reset_tracing in Hex.
    inversion Hex as [? Hs'|? Hs'|? ? ? Hs'|? ? ? Hs']; subst;
      rewrite ?entry_state_mem_flag, ?entry_state_disk_flag in Hs';
      fold func_id args_id in Hs'; try congruence.
    assert (e = IOError) as -> by congruence.
    eexists _, _. split; [done|]. split; [calm|done].
Qed.


Lemma kept_valid self aid o w :
  kept self aid o w ↔
  entry_state (_memory_cached_func self) (f_func_id (_func self)) aid w =
    Ok true ∧
  cached_value (_memory_cached_func self) (f_func_id (_func self)) aid w =
    Some o.
Proof.
  rewrite entry_state_true.
  unfold kept, has_item, cached_value, code_ok, stored_code. simpl. split.
  - intros (d & -> & Hi & Hok). simpl. rewrite Hi.
    split; [|done]. split; [apply bool_decide_eq_true_2; eauto|].
    destruct Hok as [?|(c & ? & ?)]; [by left|right; eauto].
  - intros [[Hi Hok] Hv].
    destruct (lookup_dir _ _ w) as [d|]; [|done]. simpl in *.
    exists d. split; [done|]. split; [done|].
    destruct Hok as [?|(c & ? & ?)]; [by left|right; eauto].
Qed.

Lemma kept_flags self aid o w w' :
  fs w' = fs w → _FUNCTION_HASHES w' = _FUNCTION_HASHES w →
  kept self aid o w → kept self aid o w'.
Proof.
  unfold kept, lookup_dir, in_FUNCTION_HASHES. by intros -> ->.
Qed.

Lemma check_previous_code_ok mf w :
  code_ok mf w →
  ∃ e1, _check_previous_func_code mf w = (Ok true, w, e1).
Proof.
  unfold _check_previous_func_code, get_cached_func_code, extract_first_line,
    get_func_code, code_ok, stored_code.
  destruct (in_FUNCTION_HASHES mf w) eqn:Hk; [by eexists; mrun|].
  intros [?|(c & Hc & Hcode)]; [done|]. destruct c as [c n]. simpl in Hcode.
  subst c. eexists. mrun. rewrite decide_True by done. by mrun.
Qed.

Lemma check_previous_frame mf w b w1 e1 :
  _check_previous_func_code mf w = (Ok b, w1, e1) →
  (∀ loc fid, loc ≠ store_location mf →
     lookup_dir loc fid w1 = lookup_dir loc fid w) ∧
  (∀ mf2, func mf2 = func mf → in_FUNCTION_HASHES mf2 w = true →
          in_FUNCTION_HASHES mf2 w1 = true).
Proof.
  assert (Hreg : ∀ mf2 (h : gmap positive (positive * Z)),
            func mf2 = func mf →
            match <[f_obj (func mf) := _hash_func mf]> h !! f_obj (func mf2)
            with
            | Some h => bool_decide (_hash_func mf2 = h)
            | None => false
            end = true).
  { intros mf2 h Hf. rewrite Hf, lookup_insert_eq. unfold _hash_func.
    rewrite Hf. by apply bool_decide_eq_true_2. }
  unfold _check_previous_func_code, get_cached_func_code, extract_first_line,
    mf_clear, clear_path, _write_func_code, store_cached_func_code,
    get_func_code.
  destruct (in_FUNCTION_HASHES mf w) eqn:Hk; [mrun; by intros [= <- <- <-]|].
  destruct (lookup_dir (store_location mf) (f_func_id (func mf)) w ≫=
            func_code_py) as [[c n]|] eqn:Hc.
  - destruct (decide (c = f_code (func mf))) as [->|Hne].
    + mrun. rewrite decide_True by done. mrun. by intros [= <- <- <-].
    + destruct (f_named (func mf)) eqn:Hn; mrun;
        rewrite decide_False by done; mrun; intros [= <- <- <-].
      all: split;
        [intros loc fid Hl; unfold lookup_dir, update_dir, remove_dir; simpl;
         by rewrite !lookup_total_insert_ne by done|].
      * intros mf2 Hf _. unfold in_FUNCTION_HASHES. simpl. by apply Hreg.
      * done.
  - destruct (f_named (func mf)) eqn:Hn; mrun; intros [= <- <- <-].
    all: split;
      [intros loc fid Hl; unfold lookup_dir, update_dir, remove_dir; simpl;
       by rewrite !lookup_total_insert_ne by done|].
    + intros mf2 Hf _. unfold in_FUNCTION_HASHES. simpl. by apply Hreg.
    + done.
Qed.

Lemma in_hashes_func mf mf2 w :
  func mf2 = func mf → in_FUNCTION_HASHES mf2 w = in_FUNCTION_HASHES mf w.
Proof. unfold in_FUNCTION_HASHES, _hash_func. by intros ->. Qed.

Lemma kept_dump self loc b aid o o' w :
  loc ≠ location (_memory_cache self) ∨ aid ≠ hashing_hash b →
  kept self aid o w →
  kept self aid o
    (update_dir loc (f_func_id (_func self))
       (λ d, {| func_code_py := func_code_py d;
                items := <[hashing_hash b := o']> (items d) |}) w).
Proof.
  intros Hor (d & Hd & Hi & Hok). unfold kept.
  destruct (decide (loc = location (_memory_cache self))) as [Hl|Hl].
  - destruct Hor as [?|Hne]; [done|].
    rewrite Hl, lookup_dir_update, Hd. simpl.
    eexists. split; [done|]. simpl. by rewrite lookup_insert_ne.
  - rewrite lookup_dir_update_ne by done. by exists d.
Qed.

Lemma mf_call_keeps self mf b aid o w res w' evs :
  func mf = _func self →
  store_location mf ≠ location (_memory_cache self) ∨ aid ≠ hashing_hash b →
  mf_call mf b w = (res, w', evs) →
  kept self aid o w → kept self aid o w'.
Proof.
  intros Hf Hor. unfold mf_call, call_func, dump_item, _get_output_identifiers.
  destruct (f_body (func mf) b (heap w)) as [[r|e] h'] eqn:Hb.
  - destruct (f_live _ _ _ _ _ Hb) as [o' Ho']. mrun.
    intros [= <- <- <-] Hk. apply kept_dump; [done|].
    by eapply kept_flags.
  - mrun. intros [= <- <- <-] Hk. by eapply kept_flags.
Qed.

Lemma load_or_call_keeps self mf b aid o w res w' evs :
  func mf = _func self →
  store_location mf ≠ location (_memory_cache self) ∨ aid ≠ hashing_hash b →
  (present <- contains_item mf (f_func_id (func mf)) (hashing_hash b);;
   if present : bool then
     out <- catch (load_item mf (f_func_id (func mf)) (hashing_hash b));;
     match out with
     | Ok out => ret out
     | Raise _ => mf_call mf b
     end
   else mf_call mf b) w = (res, w', evs) →
  kept self aid o w → kept self aid o w'.
Proof.
  intros Hf Hor. unfold contains_item, load_item, alloc. run.
  destruct (lookup_dir _ _ w) as [d|] eqn:Hd; simpl.
  - destruct (items d !! hashing_hash b) as [o'|] eqn:Hi; simpl.
    + rewrite Hd. simpl. rewrite Hi. run.
      intros [= <- <- <-] Hk. by eapply kept_flags.
    + destruct (mf_call mf b w) as [[res1 w2] e2] eqn:Hcall.
      intros [= <- <- <-]. by eapply mf_call_keeps.
  - destruct (mf_call mf b w) as [[res1 w2] e2] eqn:Hcall.
    intros [= <- <- <-]. by eapply mf_call_keeps.
Qed.

Lemma cached_call_keeps self mf b aid o w res w' evs :
  func mf = _func self →
  store_location mf ≠ location (_memory_cache self) ∨
  store_location mf = location (_memory_cache self) ∧
    aid ≠ hashing_hash b →
  _cached_call mf b w = (res, w', evs) →
  kept self aid o w → kept self aid o w'.
Proof.
  intros Hf Hor Hcall Hk. revert Hcall.
  unfold _cached_call. simpl.
  destruct Hor as [Hl|[Hl Hne]].
  - destruct (check_previous_spec mf w) as (b0 & w1 & e1 & Hchk & _).
    destruct (check_previous_frame _ _ _ _ _ Hchk) as [Hfr Hh].
    assert (Hk1 : kept self aid o w1).
    { destruct Hk as (d & Hd & Hi & Hok). exists d.
      rewrite Hfr by done. split; [done|]. split; [done|].
      destruct Hok as [Hin|?]; [left|by right].
      apply Hh; [by rewrite Hf|done]. }
    rewrite (bind_Ok _ _ _ _ _ _ Hchk).
    destruct b0.
    + destruct (bind (contains_item _ _ _) _ w1) as [[res1 w2] e2] eqn:Hrest.
      intros [= <- <- <-].
      eapply (load_or_call_keeps self mf b); [done|by left|exact Hrest|done].
    + unfold bind at 1. unfold ret at 1.
      destruct (mf_call mf b w1) as [[res1 w2] e2] eqn:Hrest.
      intros [= <- <- <-]. eapply mf_call_keeps; [done|by left|done..].
  - assert (Hok : code_ok mf w).
    { destruct Hk as (d & Hd & Hi & Hok). unfold code_ok, stored_code.
      rewrite Hf, Hl, Hd. simpl.
      destruct Hok as [Hin|?]; [left|by right].
      by rewrite (in_hashes_func (_memory_cached_func self)). }
    destruct (check_previous_code_ok mf w Hok) as [e1 Hchk].
    rewrite (bind_Ok _ _ _ _ _ _ Hchk).
    destruct (bind (contains_item _ _ _) _ w) as [[res1 w2] e2] eqn:Hrest.
    intros [= <- <- <-].
    eapply (load_or_call_keeps self mf b); [done|by right|exact Hrest|done].
Qed.

Lemma kept_write_code self aid o w :
  kept self aid o w →
  kept self aid o
    (update_dir (location (_memory_cache self)) (f_func_id (_func self))
       (λ d, {| func_code_py := Some (f_code (_func self),
                                      f_first_line (_func self));
                items := items d |}) w).
Proof.
  intros (d & Hd & Hi & Hok). unfold kept.
  rewrite lookup_dir_update, Hd. simpl.
  eexists. split; [done|]. split; [done|]. right. eauto.
Qed.

Lemma kept_register self aid o w :
  kept self aid o w →
  kept self aid o
    (set_FUNCTION_HASHES
       (<[f_obj (_func self) := _hash_func (_memory_cached_func self)]>
          (_FUNCTION_HASHES w)) w).
Proof.
  intros (d & Hd & Hi & Hok). exists d. split; [done|]. split; [done|].
  left. unfold in_FUNCTION_HASHES. simpl. rewrite lookup_insert_eq.
  by apply bool_decide_eq_true_2.
Qed.

Lemma store_mem_keeps self b aid o obj w res w' evs :
  aid ≠ hashing_hash b →
  _store_cached_version self "mem" (f_func_id (_func self)) (hashing_hash b)
    obj w = (res, w', evs) →
  kept self aid o w → kept self aid o w'.
Proof.
  intros Hne.
  unfold _store_cached_version, _get_cache, _write_func_code, dump_item,
    store_cached_func_code, get_func_code.
  intros Hst Hk. revert Hst.
  pose proof (kept_write_code _ _ _ _ Hk) as Hk1.
  pose proof (kept_register _ _ _ _ Hk1) as Hk2.
  destruct (f_named (_func self)) eqn:Hn; mrun.
  - destruct (heap w !! obj) as [o'|]; mrun; intros [= <- <- <-].
    + apply kept_dump; [by right|]. exact Hk2.
    + exact Hk2.
  - destruct (heap w !! obj) as [o'|]; mrun; intros [= <- <- <-].
    + apply kept_dump; [by right|]. exact Hk1.
    + exact Hk1.
Qed.

Lemma execute_from_disk_keeps self b aid o w res w' evs :
  location (_memory_cache self) ≠ location (_disk_cache self) →
  _execute_func_from_disk_cache self b w = (res, w', evs) →
  kept self aid o w → kept self aid o w'.
Proof.
  intros Hloc.
  unfold _execute_func_from_disk_cache, _get_identifiers, _get_cache,
    mf__call__.
  simpl. unfold bind at 1. simpl. unfold bind at 1.
  rewrite has_cached_disk.
  destruct (entry_state _ _ _ w) as [hit|e]; [|by intros [= <- <- <-]].
  unfold bind at 1.
  set (w0 := (if hit then ret tt else modify _) w).
  assert (Hw0 : ∃ w1, w0 = (Ok tt, w1, []) ∧ fs w1 = fs w ∧
                      _FUNCTION_HASHES w1 = _FUNCTION_HASHES w).
  { subst w0. destruct hit; by eexists. }
  destruct Hw0 as (w1 & -> & Hfs & Hh).
  destruct (_cached_call _ b w1) as [[res1 w2] e2] eqn:Hc.
  intros [= <- <- <-] Hk.
  eapply (cached_call_keeps self (_disk_cached_func self) b);
    [done| |exact Hc|by eapply kept_flags].
  left. simpl. congruence.
Qed.

Lemma execute_from_mem_keeps self b aid o w res w' evs :
  location (_memory_cache self) ≠ location (_disk_cache self) →
  aid ≠ hashing_hash b →
  _execute_func_from_mem_cache self b w = (res, w', evs) →
  kept self aid o w → kept self aid o w'.
Proof.
  intros Hloc Hne.
  unfold _execute_func_from_mem_cache, _get_identifiers, _get_cache,
    mf__call__.
  simpl. unfold bind at 1. simpl. unfold bind at 1.
  rewrite has_cached_mem.
  destruct (entry_state _ _ _ w) as [[|]|e]; [| |by intros [= <- <- <-]].
  - destruct (_cached_call _ b w) as [[res1 w2] e2] eqn:Hc.
    intros [= <- <- <-] Hk.
    eapply (cached_call_keeps self (_memory_cached_func self) b);
      [done|by right|exact Hc|done].
  - unfold bind at 1. unfold modify at 1. unfold bind at 1.
    set (w0 := set_last_used_mem_cache false w).
    set (c := if _use_disk_cache self
              then _execute_func_from_disk_cache self b
              else _cached_call (_memory_cached_func self) b).
    destruct (c w0) as [[[obj|e] w1] e1] eqn:Hc.
    + unfold bind at 1.
      destruct (_store_cached_version _ _ _ _ obj w1)
        as [[[[]|e] w2] e2] eqn:Hst; intros [= <- <- <-] Hk.
      all: eapply store_mem_keeps; [done|exact Hst|].
      all: subst c; destruct (_use_disk_cache self);
        [eapply execute_from_disk_keeps; [done|exact Hc|done]
        |eapply (cached_call_keeps self (_memory_cached_func self) b);
           [done|by right|exact Hc|done]].
    + intros [= <- <- <-] Hk.
      subst c; destruct (_use_disk_cache self);
        [eapply execute_from_disk_keeps; [done|exact Hc|done]
        |eapply (cached_call_keeps self (_memory_cached_func self) b);
           [done|by right|exact Hc|done]].
Qed.

(** X9: a call does not disturb the entry of other arguments. When the
    two stores are different directories, a valid memory entry for
    arguments [a] is still valid, with the same value, after any call with
    arguments [b] of another digest, whatever that call does. *)
Theorem other_arguments_keep_their_entry self a b w res w' evs :
  location (_memory_cache self) ≠ location (_disk_cache self) →
  hashing_hash a ≠ hashing_hash b →
  let func_id := f_func_id (_func self) in
  (_has_cached_version self "mem" func_id (hashing_hash a) w).1.1 =
    Ok true →
  __call__ self b w = (res, w', evs) →
  (_has_cached_version self "mem" func_id (hashing_hash a) w').1.1 =
    Ok true ∧
  cached_value (_memory_cached_func self) func_id (hashing_hash a) w' =
  cached_value (_memory_cached_func self) func_id (hashing_hash a) w.
Proof.
  intros Hloc Hne func_id. rewrite !has_cached_mem. simpl.
  intros Hs Hcall.
  assert (Hi : has_item (_memory_cached_func self) func_id (hashing_hash a) w
               = true) by (by apply entry_state_true in Hs as [? _]).
  destruct (has_item_value _ _ _ _ Hi) as [o Ho].
  assert (Hk : kept self (hashing_hash a) o w) by (by apply kept_valid).
  assert (Hk' : kept self (hashing_hash a) o w').
  { destruct (_USE_CACHING w) eqn:Hc.
    - rewrite call_enabled in Hcall by done.
      destruct (_execute_func self b _) as [[res1 w1] e1] eqn:Hex.
      assert (Hk1 : kept self (hashing_hash a) o w1).
      { unfold _execute_func in Hex.
        destruct (_use_mem_cache self); [|destruct (_use_disk_cache self)].
        - eapply execute_from_mem_keeps; [done|done|exact Hex|].
          by eapply kept_flags.
        - eapply execute_from_disk_keeps; [done|exact Hex|].
          by eapply kept_flags.
        - rewrite call_func_spec in Hex. injection Hex as _ <- _.
          by eapply kept_flags. }
      destruct res1 as [obj|e]; [|by injection Hcall as _ <- _].
      destruct (heap w1 !! obj); injection Hcall as _ <- _; [|done].
      by eapply kept_flags.
    - rewrite call_disabled, call_func_spec in Hcall by done.
      injection Hcall as _ <- _. by eapply kept_flags. }
  apply kept_valid in Hk' as [? ?]. subst func_id. split; [done|].
  congruence.
Qed.

Lemma entry_state_frame mf fid aid w w' :
  fs w' = fs w → _FUNCTION_HASHES w' = _FUNCTION_HASHES w →
  entry_state mf fid aid w' = entry_state mf fid aid w ∧
  cached_value mf fid aid w' = cached_value mf fid aid w.
Proof.
  unfold entry_state, has_item, stored_code, cached_value, lookup_dir,
    in_FUNCTION_HASHES.
  by intros -> ->.
Qed.


Lemma check_invalid cache_type w :
  cache_type ≠ "mem" → cache_type ≠ "disk" →
  ∃ msg,
    _check_valid_cache_type (Args:=Args) cache_type w =
    (Raise (AssertionError msg), w, []).
Proof.
  intros Hm Hd. unfold _check_valid_cache_type, dassert_in.
  rewrite decide_False; [by eexists|].
  intros Hin. apply elem_of_cons in Hin as [->|Hin]; [done|].
  apply elem_of_cons in Hin as [->|Hin]; [done|].
  by apply elem_of_nil in Hin.
Qed.

Lemma check_valid cache_type w :
  cache_type = "mem" ∨ cache_type = "disk" →
  _check_valid_cache_type (Args:=Args) cache_type w = (Ok tt, w, []).
Proof.
  intros Hct. unfold _check_valid_cache_type, dassert_in.
  rewrite decide_True; [done|]. destruct Hct as [->| ->]; set_solver.
Qed.

(** X11: the folder name that [get_cache_name] returns tells the cache
    type and the tag: two calls that return the same name were given the
    same type and the same tag. *)
Theorem cache_names_are_distinct ct1 tag1 ct2 tag2 w1 w2 name :
  (get_cache_name (Args:=Args) ct1 tag1 w1).1.1 = Ok name →
  (get_cache_name (Args:=Args) ct2 tag2 w2).1.1 = Ok name →
  ct1 = ct2 ∧ tag1 = tag2.
Proof.
  unfold get_cache_name, _check_valid_cache_type, dassert_in.
  destruct (decide (ct1 ∈ ["mem"; "disk"])) as [H1|]; [|done].
  destruct (decide (ct2 ∈ ["mem"; "disk"])) as [H2|]; [|done].
  assert (ct1 = "mem" ∨ ct1 = "disk") as [->| ->] by set_solver;
    assert (ct2 = "mem" ∨ ct2 = "disk") as [->| ->] by set_solver;
    destruct tag1, tag2; simpl; intros [= <-] Heq; by simplify_eq.
Qed.

(** X12: [get_global_cache] returns what [set_global_cache] has set for
    that type; the global of the other type, the stores and the caching
    switch are unchanged. *)
Theorem global_cache_round_trip cache_type c w :
  cache_type = "mem" ∨ cache_type = "disk" →
  ∃ w',
    set_global_cache (Args:=Args) cache_type c w = (Ok tt, w', []) ∧
    get_global_cache (Args:=Args) cache_type w' = (Ok c, w', []) ∧
    (∀ other, (other = "mem" ∨ other = "disk") → other ≠ cache_type →
       (get_global_cache (Args:=Args) other w').1.1 =
       (get_global_cache (Args:=Args) other w).1.1) ∧
    fs w' = fs w ∧ _USE_CACHING w' = _USE_CACHING w.
Proof.
  intros [->| ->]; eexists; (split; [done|]); (split; [done|]);
    (split; [|done]); by intros other [->| ->] Hne.
Qed.

Section cache_module.
Context (git_client_root : string) (abspath : string → string).



End cache_module.


End cache_proofs.

(** ** The scripts and the runners *)

Lemma for_each_cons {S E A} (x : A) l (body : A → M S E unit) s :
  for_each (x :: l) body s = bind (body x) (λ _, for_each l body) s.
Proof. done. Qed.

(** What a loop leaves behind, read through a projection of its events
    that goes through concatenation: a prefix of the plan, and the whole
    plan when the loop ends. *)
Lemma for_each_prefix {E A R} (proj : list E → list R) (plan : A → list R)
    (body : A → M unit E unit) l :
  (∀ l1 l2, proj (l1 ++ l2)%list = (proj l1 ++ proj l2)%list) →
  (∀ x res evs, body x tt = (res, tt, evs) →
     proj evs `prefix_of` plan x ∧ (res = Ok tt → proj evs = plan x)) →
  ∀ res evs, for_each l body tt = (res, tt, evs) →
    proj evs `prefix_of` (l ≫= plan) ∧
    (res = Ok tt → proj evs = l ≫= plan).
Proof.
  intros Happ Hbody.
  assert (Hnil : proj [] = []).
  { pose proof (Happ [] []) as H0. simpl in H0.
    destruct (proj []); [done|]. apply (f_equal length) in H0.
    rewrite length_app in H0. simpl in H0. lia. }
  induction l as [|x l IH]; intros res evs.
  - intros [= <- <-]. by rewrite Hnil.
  - rewrite for_each_cons. unfold bind.
    destruct (body x tt) as [[[[]|e] []] e1] eqn:Hx;
      destruct (Hbody _ _ _ Hx) as [Hpre Hok].
    + destruct (for_each l body tt) as [[r []] e2] eqn:Hl.
      destruct (IH _ _ eq_refl) as [Hpre2 Hok2].
      intros [= <- <-]. rewrite Happ, Hok by done. simpl.
      split; [by apply prefix_app|]. intros ->. by rewrite Hok2.
    + intros [= <- <-]. split; [|done]. simpl.
      by apply prefix_app_r.
Qed.

Lemma fmap_list_bind {A B C} (f : B → C) (g : A → list B) (l : list A) :
  f <$> (l ≫= g) = l ≫= (λ x, f <$> g x).
Proof.
  induction l as [|x l IH]; [done|].
  by rewrite !bind_cons, fmap_app, IH.
Qed.

Section historical.
Import download_historical.
Context {Timestamp DataFrame : Type}.
Context (new_CcxtExchange :
           string → string → result (CcxtExchange Timestamp DataFrame))
        (pd_Timestamp : string → result Timestamp)
        (pd_Timestamp_now : Timestamp).

Lemma requests_app (l1 l2 : list (@Effect Timestamp DataFrame)) :
  requests (l1 ++ l2)%list = (requests l1 ++ requests l2)%list.
Proof. apply omap_app. Qed.

Lemma files_written_app (l1 l2 : list (@Effect Timestamp DataFrame)) :
  files_written (l1 ++ l2)%list = (files_written l1 ++ files_written l2)%list.
Proof. apply omap_app. Qed.

Ltac run := unfold bind, ret, gets, modify, emit, raise, catch, lift; simpl.

(** The two loops, through any projection of the events that keeps
    concatenation and sees nothing outside the body of the inner loop. *)
Lemma main_plan {R} (proj : list (@Effect Timestamp DataFrame) → list R)
    (item : string → string → list R) args res evs :
  (∀ l1 l2, proj (l1 ++ l2)%list = (proj l1 ++ proj l2)%list) →
  (∀ d i, proj [create_dir d i] = []) →
  (∀ e, proj [connect e] = []) →
  (∀ exchange_id pair start_ end_ step_ exchange res evs,
     new_CcxtExchange exchange_id (api_keys args) = Ok exchange →
     (emit (download exchange_id pair start_ end_ step_);;
      pair_data <- lift (download_ohlcv_data exchange pair start_ end_ step_);;
      emit (sleep (sleep_time args));;
      emit (to_csv (file_of args (exchange_id, pair)) pair_data)) tt
       = (res, tt, evs) →
     proj evs `prefix_of` item exchange_id pair ∧
     (res = Ok tt → proj evs = item exchange_id pair)) →
  _main new_CcxtExchange pd_Timestamp pd_Timestamp_now args tt
    = (res, tt, evs) →
  let plan :=
    exchange_id ← the_exchange_ids args;
    pair ← the_pairs new_CcxtExchange args exchange_id;
    item exchange_id pair in
  proj evs `prefix_of` plan ∧ (res = Ok tt → proj evs = plan).
Proof.
  intros Happ Hcreate Hconnect Hitem. unfold _main.
  assert (Hnil : proj [] = []).
  { pose proof (Happ [] []) as H0. simpl in H0.
    destruct (proj []); [done|]. apply (f_equal length) in H0.
    rewrite length_app in H0. simpl in H0. lia. }
  assert (Hcons : ∀ x l, proj (x :: l) = (proj [x] ++ proj l)%list)
    by (intros x l; apply (Happ [x] l)).
  unfold bind at 1. unfold emit at 1.
  unfold bind at 1. unfold lift at 1.
  destruct (pd_Timestamp (start_datetime args)) as [start_|e]; last first.
  { intros [= <- <-]. simpl. rewrite Hcreate. split; [apply prefix_nil|done]. }
  unfold bind at 1.
  set (end_c := match end_datetime args with
                | Some "" | None => ret pd_Timestamp_now
                | Some s => lift (pd_Timestamp s)
                end).
  destruct (end_c tt) as [[[end_|e] []] e0] eqn:Hend; last first.
  { assert (e0 = []) as ->.
    { subst end_c. destruct (end_datetime args) as [[|]|]; try done;
        unfold lift in Hend; by simplify_eq. }
    intros [= <- <-]. simpl. rewrite Hcreate. split; [apply prefix_nil|done]. }
  assert (e0 = []) as ->.
  { subst end_c. destruct (end_datetime args) as [[|]|];
      unfold lift, ret in Hend; by simplify_eq. }
  fold (the_exchange_ids args).
  destruct (for_each _ _ tt) as [[r []] e1] eqn:Hloop.
  intros [= <- <-]. simpl. rewrite Hcons, Hcreate. simpl.
  revert Hloop. apply for_each_prefix; [done|].
  clear r e1. intros exchange_id r e1.
  unfold bind at 1. unfold emit at 1. unfold bind at 1. unfold lift at 1.
  unfold the_pairs.
  destruct (new_CcxtExchange exchange_id (api_keys args))
    as [exchange|e] eqn:Hex; last first.
  { intros [= <- <-]. simpl. rewrite Hconnect. done. }
  destruct (for_each _ _ tt) as [[r2 []] e2] eqn:Hloop.
  intros [= <- <-]. simpl. rewrite Hcons, Hconnect. simpl.
  revert Hloop. apply for_each_prefix; [done|].
  clear r2 e2. intros pair r2 e2 Hbody.
  by eapply Hitem.
Qed.

Lemma historical_requests args res evs :
  _main new_CcxtExchange pd_Timestamp pd_Timestamp_now args tt
    = (res, tt, evs) →
  requests evs `prefix_of` planned new_CcxtExchange args ∧
  (res = Ok tt → requests evs = planned new_CcxtExchange args).
Proof.
  apply (main_plan requests (λ exchange_id pair, [(exchange_id, pair)]));
    [apply requests_app|done..|].
  intros exchange_id pair start_ end_ step_ exchange r e _. run.
  destruct (download_ohlcv_data _ _ _ _ _); by intros [= <- <-].
Qed.

Lemma historical_files args evs :
  _main new_CcxtExchange pd_Timestamp pd_Timestamp_now args tt
    = (Ok tt, tt, evs) →
  files_written evs = file_of args <$> planned new_CcxtExchange args.
Proof.
  intros Hmain.
  eapply (main_plan files_written
            (λ exchange_id pair, [file_of args (exchange_id, pair)]))
    in Hmain as [_ Hok]; [|apply files_written_app|done..|].
  - rewrite Hok by done. unfold planned.
    rewrite fmap_list_bind. apply list_bind_ext; [|done].
    intros exchange_id. by rewrite fmap_list_bind.
  - intros exchange_id pair start_ end_ step_ exchange r e _. run.
    destruct (download_ohlcv_data _ _ _ _ _); intros [= <- <-]; [done|].
    split; [apply prefix_nil|done].
Qed.
End historical.

Section adjustments.
Import download_adjustments.
Context (API_ENDPOINT config_S3_PREFIX : string)
        (server : string → list (string * string) → result Response)
        (valid_s3_path : string → bool)
        (return_code : string → Z).

Ltac run := unfold bind, ret, gets, modify, emit, raise, catch, lift; simpl.

Lemma adjustments_requests args res evs :
  _main API_ENDPOINT config_S3_PREFIX server valid_s3_path return_code args tt
    = (res, tt, evs) →
  (login_accepted API_ENDPOINT server args ∧
   http_requests evs = [login_params args; adjustments_params args]) ∨
  (¬ login_accepted API_ENDPOINT server args ∧
   http_requests evs = [login_params args] ∧ ∃ e, res = Raise e).
Proof.
  unfold _main, get, status_code_of, dassert_in, si_system, login_accepted.
  run.
  destruct (server API_ENDPOINT (login_params args)) as [response|e] eqn:Hl.
  2:{ intros [= <- <-]. right. split; [|eauto]. by intros (? & ? & ? & ? & _). }
  simpl. destruct (String.words (text response)) as [|word rest] eqn:Hw.
  { simpl. intros [= <- <-]. right. split; [|eauto].
    intros (? & ? & ? & ? & ? & _). congruence. }
  destruct (int word) as [status_code|] eqn:Hi.
  2:{ simpl. intros [= <- <-]. right. split; [|eauto].
      intros (? & ? & ? & ? & ? & [|]); congruence. }
  simpl. destruct (decide (status_code ∈ [200; 407])) as [Hin|Hnin].
  - simpl. intros Hrest. left. split.
    { exists response, word, rest. split; [done|]. split; [done|].
      rewrite Hi. apply elem_of_cons in Hin as [->|Hin]; [by left|].
      apply elem_of_cons in Hin as [->|Hin]; [by right|].
      by apply elem_of_nil in Hin. }
    revert Hrest.
    destruct (server API_ENDPOINT (adjustments_params args)); simpl;
      [|by intros [= <- <-]].
    destruct (valid_s3_path _); simpl; [|by intros [= <- <-]].
    destruct (decide _); simpl; by intros [= <- <-].
  - simpl. intros [= <- <-]. right. split; [|eauto].
    intros (r' & w' & rest' & ? & Hw' & Hs).
    assert (w' = word) as -> by congruence.
    rewrite Hi in Hs. apply Hnin.
    destruct Hs as [[= ->]|[= ->]]; repeat constructor.
Qed.
End adjustments.

Section notebooks.
Import publish_notebook.
Context (os_environ : gmap string string)
        (os_path_exists : string → bool)
        (os_path_realpath os_path_dirname os_path_basename : string → string)
        (os_path_splitext : string → string * string)
        (tempfile_gettempdir : string)
        (now_strftime : string)
        (return_code : string → Z).

Ltac run := unfold bind, ret, gets, modify, emit, raise, catch, lift; simpl.

Local Abbreviation main :=
  (_main os_environ os_path_exists os_path_realpath os_path_dirname
     os_path_basename os_path_splitext tempfile_gettempdir now_strftime
     return_code).
Local Abbreviation src_of :=
  (src_file_name_of os_path_exists os_path_basename tempfile_gettempdir
     return_code).
Local Abbreviation html_of :=
  (html_name_of os_path_realpath os_path_dirname os_path_basename
     os_path_splitext now_strftime).
Local Abbreviation export_to_dir :=
  (_export_notebook_to_dir os_path_realpath os_path_dirname os_path_basename
     os_path_splitext now_strftime return_code).
Local Abbreviation aws_profile_of := (_get_aws_profile os_environ).

Lemma export_to_dir_command src tag_ dst_dir r evs :
  export_to_dir src tag_ dst_dir tt = (Ok r, tt, evs) →
  nbconvert src (html_of src tag_) ∈ commands evs.
Proof.
  unfold _export_notebook_to_dir, _export_notebook_to_html, si_system. run.
  destruct (decide (return_code (nbconvert _ _) = 0)); simpl; [|done].
  destruct (decide (return_code _ = 0)); simpl; [|done].
  intros [= <- <-]. simpl. by left.
Qed.

Lemma commands_app (l1 l2 : list Effect) :
  commands (l1 ++ l2)%list = (commands l1 ++ commands l2)%list.
Proof. apply omap_app. Qed.

Lemma main_converts args evs :
  action args = convert ∨ action args = publish_locally ∨
    action args = publish_on_s3 →
  main args tt = (Ok tt, tt, evs) →
  ∃ src,
    (src_of args tt).1.1 = Ok src ∧
    nbconvert src (html_of src (tag args)) ∈ commands evs.
Proof.
  intros Hact. unfold _main.
  assert (Hgen : ∀ (k : string → Run unit),
    (∀ src r e, k src tt = (Ok r, tt, e) →
       nbconvert src (html_of src (tag args)) ∈ commands e) →
    bind (src_file_name_of os_path_exists os_path_basename
            tempfile_gettempdir return_code args) k tt = (Ok tt, tt, evs) →
    ∃ src, (src_of args tt).1.1 = Ok src ∧
           nbconvert src (html_of src (tag args)) ∈ commands evs).
  { intros k Hk. unfold bind at 1.
    destruct (src_file_name_of _ _ _ _ args tt) as [[[src|e] []] e0]; [|done].
    destruct (k src tt) as [[r []] e1] eqn:Hks. intros [= -> <-].
    exists src. split; [done|]. rewrite commands_app. apply elem_of_app.
    right. by eapply Hk. }
  destruct Hact as [Ha|[Ha|Ha]]; rewrite Ha; apply Hgen; intros src r e.
  - unfold bind at 1.
    destruct (export_to_dir _ _ _ tt) as [[[h|?] []] e1] eqn:Hex; [|done].
    run. intros [= _ <-]. rewrite commands_app. apply elem_of_app. left.
    by eapply export_to_dir_command.
  - unfold bind at 1.
    destruct (match publish_notebook_dir args with
              | Some d => ret d
              | None => from_env os_environ "AM_PUBLISH_NOTEBOOK_LOCAL_PATH"
              end tt) as [[[d|?] []] e0] eqn:Hd; [|done].
    assert (e0 = []) as ->.
    { destruct (publish_notebook_dir args); [by injection Hd|].
      unfold from_env in Hd. destruct (os_environ !! _); by injection Hd. }
    unfold dassert. destruct (os_path_exists d); run; [|done].
    destruct (export_to_dir _ _ _ tt) as [[[h|?] []] e1] eqn:Hex; [|done].
    intros [= _ <-]. simpl. rewrite app_nil_r.
    by eapply export_to_dir_command.
  - unfold bind at 1.
    destruct (export_to_dir _ _ _ tt) as [[[h|?] []] e1] eqn:Hex; [|done].
    destruct (bind _ _ tt) as [[r' []] e2]. intros [= _ <-].
    rewrite commands_app. apply elem_of_app. left.
    by eapply export_to_dir_command.
Qed.

Lemma main_puts_on_s3 args evs :
  action args = publish_on_s3 →
  main args tt = (Ok tt, tt, evs) →
  ∃ aws_profile_ local_src_path remote_path,
    s3fs_put aws_profile_ local_src_path remote_path ∈ evs.
Proof.
  intros Ha. unfold _main. rewrite Ha. unfold bind at 1.
  destruct (src_of args tt) as [[[src|e] []] e0]; [|done].
  unfold bind at 1.
  destruct (export_to_dir _ _ _ tt) as [[[h|?] []] e1]; [|done].
  unfold bind at 1.
  destruct (_get_s3_path os_environ args tt) as [[[s|?] []] e2]; [|done].
  unfold bind at 1.
  destruct (aws_profile_of args tt) as [[[p|?] []] e3]; [|done].
  unfold _post_to_s3, dassert.
  destruct (os_path_exists h); run; [|done].
  destruct (startswith s "s3://"); run; [|done].
  destruct (endswith s "/notebooks"); run; [|done].
  intros [= <-]. eexists _, _, _.
  apply elem_of_app. right. apply elem_of_app. right. apply elem_of_app.
  right. apply elem_of_app. right. by left.
Qed.

Lemma main_opens args res evs aws_profile_ :
  action args = open →
  (aws_profile_of args tt).1.1 = Ok aws_profile_ →
  main args tt = (res, tt, evs) →
  let local_file_name := os_path_basename (file args) in
  let ls := ls_cmd aws_profile_ (file args) in
  let cp := cp_cmd aws_profile_ (file args) local_file_name in
  evs `prefix_of` [system ls; system cp; open_file local_file_name] ∧
  system ls ∈ evs ∧
  (return_code ls = 0 → system cp ∈ evs) ∧
  (return_code ls = 0 → return_code cp = 0 →
   evs = [system ls; system cp; open_file local_file_name] ∧
   res = Raise (SystemExit 0)).
Proof.
  intros Ha Hp. unfold _main. rewrite Ha. unfold bind at 1.
  destruct (aws_profile_of args tt) as [[[p|?] []] e0] eqn:Hprof; [|done].
  simpl in Hp. injection Hp as ->.
  assert (e0 = []) as ->.
  { unfold _get_aws_profile, from_env in Hprof.
    destruct (aws_profile args) as [s|]; [destruct (decide (s = ""))|];
      try destruct (os_environ !! _); by injection Hprof. }
  unfold si_system. run.
  destruct (decide (return_code (ls_cmd _ _) = 0)) as [Hls|Hls]; simpl.
  - destruct (decide (return_code (cp_cmd _ _ _) = 0)) as [Hcp|Hcp]; simpl;
      intros [= <- <-].
    + split; [done|]. split; [by left|]. split; [intros; right; by left|done].
    + split; [by exists [open_file (os_path_basename (file args))]|].
      split; [by left|]. split; [intros; right; by left|done].
  - intros [= <- <-].
    split; [by eexists [_; _]|]. split; [by left|]. done.
Qed.

End notebooks.

Section runners.
Import dataflow.
Context {Config FitState DataFrame : Type}.
Context (node_run : Node → string → Interval → option FitState →
                    list DataFrame → option FitState * DataFrame)
        (no_df : DataFrame).

Local Abbreviation DAG := (@DAG FitState).
Local Abbreviation DagBuilder := (@DagBuilder Config FitState).
Local Abbreviation DagRunner := (@DagRunner Config FitState).
Local Abbreviation ResultBundle := (@ResultBundle DataFrame).
Local Abbreviation Run := (M (gmap string FitState) Effect).

Ltac run := unfold bind, ret, gets, modify, emit, raise, catch, lift; simpl.

Lemma run_nodes_visits ns outputs last method_ interval_ st :
  ∃ df st',
    run_nodes node_run ns outputs last method_ interval_ st =
    (Ok df, st', (λ n, visit (nid n) method_ interval_) <$> ns).
Proof.
  revert outputs last st.
  induction ns as [|n ns IH]; intros outputs last st; [by eexists _, _|].
  simpl. unfold run_node. run.
  destruct (node_run n method_ interval_ (st !! nid n) _) as [state' df].
  simpl.
  destruct (IH (<[nid n:=df]> outputs) df
              match state' with
              | Some s => <[nid n:=s]> st
              | None => st
              end) as (df' & st' & ->).
  by eexists _, _.
Qed.

Lemma run_dag_visits (d : DAG) method_ interval_ st :
  ∃ df st',
    run_dag node_run no_df d method_ interval_ st =
    (Ok {| result_df := df; method := method_; interval := interval_ |},
     st', traversal d method_ interval_).
Proof.
  unfold run_dag, traversal, bind.
  destruct (run_nodes_visits (nodes d) ∅ no_df method_ interval_ st)
    as (df & st' & ->).
  run. rewrite app_nil_r. by eexists _, _.
Qed.

(** A loop that runs the DAG a fixed number of times per item. *)
Lemma collect_traversals {A} (l : list A) (body : A → Run ResultBundle)
    (passes : A → list Effect) (last : A → string * Interval) st :
  (∀ x st, ∃ df st',
     body x st =
     (Ok {| result_df := df; method := (last x).1; interval := (last x).2 |},
      st', passes x)) →
  ∃ rbs st',
    collect l body st = (Ok rbs, st', l ≫= passes) ∧
    (λ rb, (method rb, interval rb)) <$> rbs = last <$> l.
Proof.
  intros Hbody. revert st.
  induction l as [|x l IH]; intros st; [by eexists _, _|].
  simpl. unfold bind at 1. destruct (Hbody x st) as (df & st1 & ->).
  unfold bind at 1. destruct (IH st1) as (rbs & st2 & -> & Hrbs).
  run. rewrite app_nil_r. eexists _, _. split; [done|].
  rewrite !fmap_cons. simpl. rewrite Hrbs. by destruct (last x).
Qed.

(** The range of the test of the incremental runner has four steps. *)
Lemma date_range_of_the_test :
  date_range (15 * 60 + 30) (15 * 60 + 45) 5 = [930; 935; 940; 945].
Proof. reflexivity. Qed.
End runners.


(** ** More of the scripts *)

Lemma for_each_forall {E A} (P : E → Prop) (body : A → M unit E unit) l :
  (∀ x res evs, x ∈ l → body x tt = (res, tt, evs) → Forall P evs) →
  ∀ res evs, for_each l body tt = (res, tt, evs) → Forall P evs.
Proof.
  induction l as [|x l IH]; intros Hbody res evs.
  - by intros [= <- <-].
  - rewrite for_each_cons. unfold bind.
    destruct (body x tt) as [[[[]|e] []] e1] eqn:Hx.
    + destruct (for_each l body tt) as [[r []] e2] eqn:Hl.
      intros [= <- <-]. apply Forall_app. split.
      * eapply Hbody; [|done]. by left.
      * eapply IH; [|done]. intros y r' e' Hy. apply Hbody. by right.
    + intros [= <- <-]. eapply Hbody; [|done]. by left.
Qed.

Section historical_more.
Import download_historical.
Context {Timestamp DataFrame : Type}.
Context (new_CcxtExchange :
           string → string → result (CcxtExchange Timestamp DataFrame))
        (pd_Timestamp : string → result Timestamp)
        (pd_Timestamp_now : Timestamp).

Ltac run := unfold bind, ret, gets, modify, emit, raise, catch, lift; simpl.

Local Abbreviation main :=
  (_main new_CcxtExchange pd_Timestamp pd_Timestamp_now).

Lemma steps_app (l1 l2 : list (@Effect Timestamp DataFrame)) :
  steps (l1 ++ l2)%list = (steps l1 ++ steps l2)%list.
Proof. apply omap_app. Qed.



(** X16: [download_historical._main] first creates the directory and
    reads the dates, once: when a date cannot be read the run stops there,
    with no exchange contacted, and every download is for the start of
    [--start_datetime], the end of [--end_datetime] (now when it is absent
    or empty) and [--step]. *)
Theorem downloads_share_one_interval args res evs :
  main args tt = (res, tt, evs) →
  head evs = Some (create_dir (dst_dir args) (incremental args)) ∧
  (∀ e, pd_Timestamp (start_datetime args) = Raise e ∨
        (∃ s, pd_Timestamp (start_datetime args) = Ok s) ∧
        the_end_datetime pd_Timestamp pd_Timestamp_now args = Raise e →
     res = Raise e ∧
     evs = [create_dir (dst_dir args) (incremental args)]) ∧
  (∀ exchange_id pair start_ end_ step_,
     download exchange_id pair start_ end_ step_ ∈ evs →
     pd_Timestamp (start_datetime args) = Ok start_ ∧
     the_end_datetime pd_Timestamp pd_Timestamp_now args = Ok end_ ∧
     step_ = step args).
Proof.
  unfold _main, the_end_datetime.
  unfold bind at 1. unfold emit at 1.
  unfold bind at 1. unfold lift at 1.
  destruct (pd_Timestamp (start_datetime args)) as [start_|e0] eqn:Hs.
  2:{ intros [= <- <-]. simpl. split; [done|]. split.
      - intros e [[= ->]|([s Hx] & _)]; [done|discriminate Hx].
      - intros ? ? ? ? ? Hin. apply list_elem_of_singleton in Hin. done. }
  unfold bind at 1.
  set (end_c := match end_datetime args with
                | Some "" | None => ret pd_Timestamp_now
                | Some s => lift (pd_Timestamp s)
                end).
  set (end_r := match end_datetime args with
                | Some "" | None => Ok pd_Timestamp_now
                | Some s => pd_Timestamp s
                end).
  assert (Hend : end_c tt = (end_r, tt, [])).
  { subst end_c end_r. by destruct (end_datetime args) as [[|]|]. }
  rewrite Hend. destruct end_r as [end_|e0] eqn:Her.
  2:{ intros [= <- <-]. simpl. split; [done|]. split.
      - intros e [Hx|(_ & [= ->])]; [discriminate Hx|done].
      - intros ? ? ? ? ? Hin. apply list_elem_of_singleton in Hin. done. }
  destruct (for_each _ _ tt) as [[r []] e1] eqn:Hloop.
  intros [= <- <-]. simpl. split; [done|]. split.
  { intros e [Hx|(_ & Hx)]; discriminate Hx. }
  intros exchange_id pair s e st Hin.
  apply elem_of_cons in Hin as [[=]|Hin].
  eapply (for_each_forall
            (λ ev, ∀ exchange_id pair s e st,
               ev = download exchange_id pair s e st →
               Ok start_ = Ok s ∧ Ok end_ = Ok e ∧ st = step args))
    in Hloop.
  - rewrite Forall_forall in Hloop. by eapply Hloop.
  - clear. intros ex r e1 _.
    unfold bind at 1. unfold emit at 1. unfold bind at 1. unfold lift at 1.
    destruct (new_CcxtExchange ex (api_keys args)) as [exchange|e].
    2:{ intros [= <- <-]. constructor; [by intros|constructor]. }
    destruct (for_each _ _ tt) as [[r2 []] e2] eqn:Hloop.
    intros [= <- <-]. simpl. constructor; [by intros|].
    eapply for_each_forall in Hloop; [done|].
    clear. intros pair r e3 _. run.
    destruct (download_ohlcv_data _ _ _ _ _); intros [= <- <-].
    + constructor; [intros; by simplify_eq|].
      constructor; [by intros|]. constructor; [by intros|constructor].
    + constructor; [intros; by simplify_eq|constructor].
Qed.

End historical_more.

Section adjustments_more.
Import download_adjustments.
Context (API_ENDPOINT config_S3_PREFIX : string)
        (server : string → list (string * string) → result Response)
        (valid_s3_path : string → bool)
        (return_code : string → Z).

Ltac run := unfold bind, ret, gets, modify, emit, raise, catch, lift; simpl.

Local Abbreviation main :=
  (_main API_ENDPOINT config_S3_PREFIX server valid_s3_path return_code).
Local Abbreviation accepted := (login_accepted API_ENDPOINT server).


End adjustments_more.

Lemma split_on_nonempty s sep : split_on s sep ≠ [].
Proof.
  destruct s as [|c s]; simpl; [done|].
  destruct (decide (c = sep)); [done|]. by destruct (split_on s sep).
Qed.

Lemma split_on_app_sep s1 s2 sep :
  split_on s1 sep = [s1] →
  split_on (s1 +:+ String sep s2) sep = s1 :: split_on s2 sep.
Proof.
  induction s1 as [|c s1 IH]; simpl.
  - intros _. by rewrite decide_True.
  - destruct (decide (c = sep)) as [->|Hne]; [done|].
    destruct (split_on s1 sep) as [|field fields] eqn:Hs.
    + by apply split_on_nonempty in Hs.
    + intros [= -> ->]. by rewrite IH.
Qed.

Lemma concat_split_on s sep :
  String.concat (String sep "") (split_on s sep) = s.
Proof.
  induction s as [|c s IH]; simpl; [done|].
  destruct (decide (c = sep)) as [->|Hne].
  - pose proof (split_on_nonempty s sep).
    destruct (split_on s sep) as [|field fields]; [done|].
    simpl in *. by rewrite IH.
  - destruct (split_on s sep) as [|field fields] eqn:Hs.
    + by apply split_on_nonempty in Hs.
    + simpl in *. destruct fields; simpl in *; by rewrite <-IH.
Qed.

Lemma bind_events {S E A B} (P : E → Prop) (c : M S E A) (k : A → M S E B)
    s :
  Forall P (c s).2 →
  (∀ a s1 e1, c s = (Ok a, s1, e1) → Forall P (k a s1).2) →
  Forall P (bind c k s).2.
Proof.
  unfold bind. destruct (c s) as [[[a|e] s1] e1]; simpl; [|done].
  intros H1 H2. specialize (H2 a s1 e1 eq_refl).
  destruct (k a s1) as [[r s2] e2]. simpl in *. by apply Forall_app.
Qed.

Section notebooks_more.
Import publish_notebook.
Context (os_environ : gmap string string)
        (os_path_exists : string → bool)
        (os_path_realpath os_path_dirname os_path_basename : string → string)
        (os_path_splitext : string → string * string)
        (tempfile_gettempdir : string)
        (now_strftime : string)
        (return_code : string → Z).

Ltac run := unfold bind, ret, gets, modify, emit, raise, catch, lift; simpl.

Local Abbreviation main :=
  (_main os_environ os_path_exists os_path_realpath os_path_dirname
     os_path_basename os_path_splitext tempfile_gettempdir now_strftime
     return_code).
Local Abbreviation src_of :=
  (src_file_name_of os_path_exists os_path_basename tempfile_gettempdir
     return_code).
Local Abbreviation export_to_dir :=
  (_export_notebook_to_dir os_path_realpath os_path_dirname os_path_basename
     os_path_splitext now_strftime return_code).

(** X19: [_get_path] of a GitHub URL
    [https://github.com/<org>/<repo>/<kind>/<branch>/<path>] is [<path>],
    with no check that the file exists; a string that is no URL is
    returned as it is when it ends in [.ipynb] and exists, and raises
    [ValueError] otherwise. *)
Theorem get_path_reads_urls :
  (∀ org repo kind branch path,
     split_on org "/" = [org] → split_on repo "/" = [repo] →
     split_on kind "/" = [kind] → split_on branch "/" = [branch] →
     _get_path os_path_exists
       ("https://github.com/" +:+ org +:+ "/" +:+ repo +:+ "/" +:+ kind
        +:+ "/" +:+ branch +:+ "/" +:+ path) tt = (Ok path, tt, [])) ∧
  (∀ path_or_url,
     contains path_or_url "https://github" = false →
     contains path_or_url "http://" = false →
     endswith path_or_url ".ipynb" && os_path_exists path_or_url = false →
     ∃ msg, _get_path os_path_exists path_or_url tt =
            (Raise (ValueError msg), tt, [])) ∧
  (∀ path_or_url,
     contains path_or_url "https://github" = false →
     contains path_or_url "http://" = false →
     endswith path_or_url ".ipynb" && os_path_exists path_or_url = true →
     _get_path os_path_exists path_or_url tt = (Ok path_or_url, tt, [])).
Proof.
  split; [|split].
  - intros org repo kind branch path Ho Hr Hk Hb. unfold _get_path.
    assert (contains ("https://github.com/" +:+ org +:+ "/" +:+ repo +:+ "/"
                      +:+ kind +:+ "/" +:+ branch +:+ "/" +:+ path)
              "https://github" = true) as -> by done.
    change ("https://github.com/" +:+ org +:+ "/" +:+ repo +:+ "/" +:+ kind
            +:+ "/" +:+ branch +:+ "/" +:+ path)
      with ("https:" +:+ String "/" ("" +:+ String "/" ("github.com" +:+
            String "/" (org +:+ String "/" (repo +:+ String "/" (kind +:+
            String "/" (branch +:+ String "/" path))))))).
    rewrite !split_on_app_sep by done. cbn [drop].
    by rewrite drop_0, concat_split_on.
  - intros p H1 H2 H3. unfold _get_path. rewrite H1, H2, H3. by eexists.
  - intros p H1 H2 H3. unfold _get_path. by rewrite H1, H2, H3.
Qed.
Lemma si_system_events (P : Effect → Prop) cmd :
  P (system cmd) → Forall P (si_system return_code cmd tt).2.
Proof.
  intros HP. unfold si_system. run.
  destruct (decide (return_code cmd = 0)); simpl; by repeat constructor.
Qed.

Lemma pure_s3_path args :
  _get_s3_path os_environ args tt =
  ((_get_s3_path os_environ args tt).1.1, tt, []).
Proof.
  unfold _get_s3_path, from_env.
  destruct (s3_path args) as [s|]; [destruct (decide (s = ""))|];
    try destruct (os_environ !! _); done.
Qed.

Lemma pure_aws_profile args :
  _get_aws_profile os_environ args tt =
  ((_get_aws_profile os_environ args tt).1.1, tt, []).
Proof.
  unfold _get_aws_profile, from_env.
  destruct (aws_profile args) as [s|]; [destruct (decide (s = ""))|];
    try destruct (os_environ !! _); done.
Qed.

Lemma src_of_events (P : Effect → Prop) args :
  (∀ c, P (system c)) → Forall P (src_of args tt).2.
Proof.
  intros HP.
  assert (Hpath : ∀ f, Forall P (_get_path os_path_exists f tt).2).
  { intros f. assert ((_get_path os_path_exists f tt).2 = []) as ->; [|done].
    unfold _get_path, dassert.
    destruct (contains f "https://github"); [done|].
    destruct (contains f "http://").
    - run. by destruct (os_path_exists _).
    - by destruct (endswith f ".ipynb" && os_path_exists f). }
  unfold src_file_name_of.
  destruct (branch args) as [b|]; [destruct (decide (b = ""))|]; try done.
  unfold _get_file_from_git_branch. apply bind_events; [|by intros].
  by apply si_system_events.
Qed.

Lemma export_to_dir_events (P : Effect → Prop) src tag_ dst_dir :
  (∀ c, P (system c)) → (∀ d i, P (create_dir d i)) →
  Forall P (export_to_dir src tag_ dst_dir tt).2.
Proof.
  intros Hs Hc. unfold _export_notebook_to_dir, _export_notebook_to_html.
  apply bind_events.
  { apply bind_events; [by apply si_system_events|by intros]. }
  intros html [] e1 _. apply bind_events; [by repeat constructor|].
  intros [] [] e2 _. apply bind_events; [by apply si_system_events|].
  by intros.
Qed.

Lemma main_events (P : Effect → Prop) args :
  (∀ c, P (system c)) → (∀ d i, P (create_dir d i)) →
  (∀ f, P (open_file f)) →
  (∀ s3 p html,
     action args = publish_on_s3 →
     (_get_s3_path os_environ args tt).1.1 = Ok s3 →
     (_get_aws_profile os_environ args tt).1.1 = Ok p →
     os_path_exists html = true →
     startswith s3 "s3://" = true → endswith s3 "/notebooks" = true →
     P (s3fs_put p html (os_path_join s3 (os_path_basename html)))) →
  Forall P (main args tt).2.
Proof.
  intros Hs Hc Ho Hput. unfold _main.
  destruct (action args) eqn:Ha.
  - apply bind_events; [by apply src_of_events|]. by intros.
  - apply bind_events; [by apply src_of_events|]. intros src [] e0 _.
    apply bind_events; [by apply export_to_dir_events|].
    intros html [] e1 _. by repeat constructor.
  - apply bind_events; [by rewrite pure_aws_profile|].
    intros p [] e0 _. apply bind_events; [by apply si_system_events|].
    intros [] [] e1 _. apply bind_events; [by apply si_system_events|].
    intros [] [] e2 _. apply bind_events; [by repeat constructor|].
    by intros.
  - apply bind_events; [by apply src_of_events|]. intros src [] e0 _.
    apply bind_events.
    { destruct (publish_notebook_dir args); [done|]. unfold from_env.
      by destruct (os_environ !! _). }
    intros d [] e1 _. apply bind_events.
    { unfold dassert. by destruct (os_path_exists d). }
    intros [] [] e2 _. apply bind_events; [by repeat constructor|].
    intros [] [] e3 _. apply bind_events; [by apply export_to_dir_events|].
    by intros.
  - apply bind_events; [by apply src_of_events|]. intros src [] e0 _.
    apply bind_events; [by apply export_to_dir_events|].
    intros html [] e1 _. apply bind_events; [by rewrite pure_s3_path|].
    intros s3 [] e2 Hs3. apply bind_events; [by rewrite pure_aws_profile|].
    intros p [] e3 Hp. apply bind_events; [|by intros].
    unfold _post_to_s3, dassert.
    destruct (os_path_exists html) eqn:Hex; run; [|done].
    destruct (startswith s3 "s3://") eqn:Hst; run; [|done].
    destruct (endswith s3 "/notebooks") eqn:Hen; run; [|done].
    constructor; [|done]. apply Hput; try done.
    + by rewrite Hs3.
    + by rewrite Hp.
  - apply bind_events; [by apply src_of_events|]. by intros.
Qed.

(** X20: no run of [publish_notebook._main] posts to the web server.
    With the action [publish_on_webserver], and with the default of
    [--action], the script only resolves the source file and then fails:
    with an [UnboundLocalError] for [html_file_name], and with an
    assertion error for the default. *)
Theorem webserver_is_never_reached args res evs :
  _main os_environ os_path_exists os_path_realpath os_path_dirname
    os_path_basename os_path_splitext tempfile_gettempdir now_strftime
    return_code args tt = (res, tt, evs) →
  (∀ url dst_path local_src_path,
     requests_post url dst_path local_src_path ∉ evs) ∧
  (action args = publish_on_webserver ∨ action args = default_action →
   evs = (src_of args tt).2 ∧
   match (src_of args tt).1.1 with
   | Raise e => res = Raise e
   | Ok _ =>
       match action args with
       | publish_on_webserver =>
           res = Raise (UnboundLocalError "html_file_name")
       | _ => ∃ msg, res = Raise (AssertionError msg)
       end
   end).
Proof.
  intros Hmain. split.
  - intros url dst_path local_src_path Hin.
    pose proof (main_events
      (λ e, match e with requests_post _ _ _ => False | _ => True end) args)
      as Hall.
    rewrite Hmain in Hall. simpl in Hall. rewrite Forall_forall in Hall.
    by apply (Hall (λ _, I) (λ _ _, I) (λ _, I) (λ _ _ _ _ _ _ _ _ _, I)
                _ Hin).
  - revert Hmain. unfold _main.
    intros Hmain [Ha|Ha]; rewrite Ha in *; revert Hmain; unfold bind;
      destruct (src_of args tt) as [[[src|e] []] e0]; simpl;
      intros [= <- <-]; rewrite ?app_nil_r; split; try done.
    by eexists.
Qed.

(** X21: whatever [publish_notebook._main] uploads to S3, it is for the
    action [publish_on_s3], the local file exists, the profile is the one
    of [_get_aws_profile], and the destination is the name of the file
    under the path of [_get_s3_path], which starts with [s3://] and ends
    with [/notebooks]. *)
Theorem uploads_go_to_a_notebooks_dir args res evs p l r :
  main args tt = (res, tt, evs) →
  s3fs_put p l r ∈ evs →
  action args = publish_on_s3 ∧
  os_path_exists l = true ∧
  (_get_aws_profile os_environ args tt).1.1 = Ok p ∧
  ∃ s3,
    (_get_s3_path os_environ args tt).1.1 = Ok s3 ∧
    startswith s3 "s3://" = true ∧ endswith s3 "/notebooks" = true ∧
    r = os_path_join s3 (os_path_basename l).
Proof.
  intros Hmain Hin.
  pose proof (main_events
    (λ e, match e with
          | s3fs_put p l r =>
              action args = publish_on_s3 ∧
              os_path_exists l = true ∧
              (_get_aws_profile os_environ args tt).1.1 = Ok p ∧
              ∃ s3,
                (_get_s3_path os_environ args tt).1.1 = Ok s3 ∧
                startswith s3 "s3://" = true ∧
                endswith s3 "/notebooks" = true ∧
                r = os_path_join s3 (os_path_basename l)
          | _ => True
          end) args) as Hall.
  rewrite Hmain in Hall. simpl in Hall. rewrite Forall_forall in Hall.
  apply (Hall (λ _, I) (λ _ _, I) (λ _, I)) in Hin; [done|].
  intros s3 p' html ? ? ? ? ? ?. eauto 10.
Qed.

(** X22: [publish_locally] wants its directory before it converts. The
    directory is [--publish_notebook_dir] or, without it,
    [AM_PUBLISH_NOTEBOOK_LOCAL_PATH]; when it is not given or does not
    exist the run stops with an assertion error having run nothing but
    the resolution of the source, and a run that succeeds has resolved the
    source, created the directory and exported the notebook into it. *)
Theorem publish_locally_needs_its_directory args res evs :
  action args = publish_locally →
  _main os_environ os_path_exists os_path_realpath os_path_dirname
    os_path_basename os_path_splitext tempfile_gettempdir now_strftime
    return_code args tt = (res, tt, evs) →
  let dst_dir :=
    match publish_notebook_dir args with
    | Some d => Some d
    | None => os_environ !! "AM_PUBLISH_NOTEBOOK_LOCAL_PATH"
    end in
  (∀ src, (src_of args tt).1.1 = Ok src →
     match dst_dir with
     | None => ∃ msg, res = Raise (AssertionError msg)
     | Some d =>
         os_path_exists d = false → ∃ msg, res = Raise (AssertionError msg)
     end) ∧
  ((∀ d, dst_dir = Some d → os_path_exists d = false) →
   evs = (src_of args tt).2) ∧
  (res = Ok tt →
   ∃ d src html,
     dst_dir = Some d ∧ os_path_exists d = true ∧
     (src_of args tt).1.1 = Ok src ∧
     evs = ((src_of args tt).2 ++ [create_dir d true] ++
            (export_to_dir src (tag args) d tt).2)%list ∧
     (export_to_dir src (tag args) d tt).1.1 = Ok html).
Proof.
  intros Ha. unfold _main. rewrite Ha. unfold bind at 1.
  destruct (src_of args tt) as [[[src|e] []] e0]; simpl.
  2:{ intros [= <- <-]. split; [done|]. split; [done|]. done. }
  unfold bind at 1.
  destruct (publish_notebook_dir args) as [d|] eqn:Hd.
  - unfold ret at 1. unfold dassert, bind at 1.
    destruct (os_path_exists d) eqn:Hex.
    + unfold ret at 1. run.
      destruct (export_to_dir src (tag args) d tt) as [[[html|e] []] e1]
        eqn:Hexp;
        simpl; intros [= <- <-].
      * split; [intros ? _ ?; congruence|].
        split; [intros Hx; specialize (Hx _ eq_refl); congruence|].
        intros _. exists d, src, html. rewrite Hexp. simpl.
           by rewrite app_nil_r.
      * split; [intros ? _ ?; congruence|].
        split; [intros Hx; specialize (Hx _ eq_refl); congruence|].
        done.
    + run. intros [= <- <-]. split; [intros ? _ _; by eexists|].
      split; [by rewrite app_nil_r|done].
  - unfold from_env.
    destruct (os_environ !! "AM_PUBLISH_NOTEBOOK_LOCAL_PATH") as [d|] eqn:He.
    + unfold ret at 1. unfold dassert, bind at 1.
      destruct (os_path_exists d) eqn:Hex.
      * unfold ret at 1. run.
        destruct (export_to_dir src (tag args) d tt) as [[[html|e] []] e1]
        eqn:Hexp;
          simpl; intros [= <- <-].
        -- split; [intros ? _ ?; congruence|].
           split; [intros Hx; specialize (Hx _ eq_refl); congruence|].
           intros _. exists d, src, html. rewrite Hexp. simpl.
           by rewrite app_nil_r.
        -- split; [intros ? _ ?; congruence|].
           split; [intros Hx; specialize (Hx _ eq_refl); congruence|]. done.
      * run. intros [= <- <-]. split; [intros ? _ _; by eexists|].
        split; [by rewrite app_nil_r|done].
    + run. intros [= <- <-]. split; [intros ? _; by eexists|].
      split; [by rewrite app_nil_r|done].
Qed.

End notebooks_more.

(** * The theorems on concrete runs *)

Section concrete_runs.
Import examples.


Lemma changed_source_invalidates_entry_witness :
  (_has_cached_version (cached double_v2) "mem" "mod/double" "5"
     world1).1.1 = Ok false.
Proof.
  refine (proj1 (proj1 (changed_source_invalidates_entry (cached double_v2)
    "mem" (_memory_cached_func (cached double_v2)) 5 world1
    (f_code double) 1 _ _ _) _ _)).
  - vm_compute; reflexivity.
  - vm_compute; reflexivity.
  - vm_compute; reflexivity.
  - vm_compute; discriminate.
  - vm_compute; discriminate.
Defined.




Lemma global_cache_is_a_singleton_witness :
  ∃ c w',
    get_cache (Args := Z) "/repo" id "mem" None world0 = (Ok c, w', []) ∧
    global_cache "mem" w' = Some c ∧
    get_cache (Args := Z) "/repo" id "mem" None w' = (Ok c, w', []).
Proof.
  destruct (global_cache_is_a_singleton (Args := Z) "/repo" id "mem" world0)
    as (_ & Hfirst & _); [left; reflexivity|].
  destruct Hfirst as (c & w' & Hget & _ & Hglobal & Hlater);
    [vm_compute; reflexivity|].
  exists c, w'. split; [exact Hget|]. split; [exact Hglobal|].
  exact (Hlater []).
Defined.



End concrete_runs.

(** * The further theorems on concrete runs *)

Section more_concrete_runs.
Import examples.

Lemma unused_level_is_never_touched_witness :
  ¬ touches "mem" disk_only_call.2.
Proof.
  destruct (unused_level_is_never_touched (cached_as double false true) 5
              world0 disk_only_call.1.1 disk_only_call.1.2 disk_only_call.2)
    as (Hmem & _); [vm_compute; reflexivity|].
  apply Hmem. reflexivity.
Defined.




Lemma clear_cache_forgets_witness :
  ∃ w' evs,
    clear_cache (cached double) None world1 = (Ok tt, w', evs) ∧
    (_has_cached_version (cached double) "mem" "mod/double"
       (hashing_hash 5) w').1.1 = Ok false.
Proof.
  destruct (clear_cache_forgets (cached double) None world1)
    as (w' & evs & Hclear & _ & _ & Hgone & _); [left; reflexivity|].
  exists w', evs. split; [exact Hclear|].
  apply Hgone. right. split; [reflexivity|left; reflexivity].
Defined.


Lemma entry_without_source_fails_witness :
  (_has_cached_version (cached double) "mem" "mod/double" (hashing_hash 5)
     world_no_source).1.1 = Raise IOError.
Proof.
  refine (proj1 (entry_without_source_fails (cached double) "mem"
    (_memory_cached_func (cached double)) 5 world_no_source _ _ _ _ _ _)).
  - left. split; reflexivity.
  - reflexivity.
  - vm_compute; reflexivity.
  - vm_compute; reflexivity.
  - eexists. vm_compute; reflexivity.
  - vm_compute; discriminate.
Defined.


Lemma other_arguments_keep_their_entry_witness :
  (_has_cached_version (cached double) "mem" "mod/double" (hashing_hash 5)
     (__call__ (cached double) 6 world1).1.2).1.1 = Ok true.
Proof.
  refine (proj1 (other_arguments_keep_their_entry (cached double) 5 6 world1
    (__call__ (cached double) 6 world1).1.1
    (__call__ (cached double) 6 world1).1.2
    (__call__ (cached double) 6 world1).2 _ _ _ _)).
  - vm_compute; discriminate.
  - vm_compute; discriminate.
  - vm_compute; reflexivity.
  - vm_compute; reflexivity.
Defined.



Lemma cache_names_are_distinct_witness :
  ("mem" : string) = "mem" ∧ Some "x" = Some "x".
Proof.
  apply (cache_names_are_distinct (Args := Z) (Obj := Z) "mem" (Some "x")
           "mem" (Some "x") world0 world1 "tmp.joblib.mem.x");
    vm_compute; reflexivity.
Defined.

Lemma global_cache_round_trip_witness :
  ∃ w',
    set_global_cache (Args := Z) "disk"
      (Some {| memory_id := 7; location := "/repo/tmp.joblib.disk" |})
      world0 = (Ok tt, w', []) ∧
    get_global_cache (Args := Z) "disk" w' =
      (Ok (Some {| memory_id := 7; location := "/repo/tmp.joblib.disk" |}),
       w', []).
Proof.
  destruct (global_cache_round_trip (Args := Z) "disk"
              (Some {| memory_id := 7; location := "/repo/tmp.joblib.disk" |})
              world0)
    as (w' & Hset & Hget & _); [right; reflexivity|].
  exists w'. split; [exact Hset|exact Hget].
Defined.



Lemma downloads_share_one_interval_witness :
  head historical_run.2 =
  Some (download_historical.create_dir "test" false).
Proof.
  destruct (downloads_share_one_interval (λ _ _, Ok binance) (λ s, Ok s)
              "now" historical_args (Ok tt) historical_run.2)
    as (Hhead & _); [vm_compute; reflexivity|].
  exact Hhead.
Defined.



Lemma webserver_is_never_reached_witness :
  (notebook_run publish_notebook.publish_on_webserver).1.1 =
  Raise (UnboundLocalError "html_file_name").
Proof.
  destruct (webserver_is_never_reached ∅ (λ _, true) id dirname basename
              splitext "/tmp" "20180802_162438" (λ _, 0)
              (notebook_args publish_notebook.publish_on_webserver)
              (notebook_run publish_notebook.publish_on_webserver).1.1
              (notebook_run publish_notebook.publish_on_webserver).2)
    as (_ & Hfail); [vm_compute; reflexivity|].
  destruct (Hfail (or_introl eq_refl)) as (_ & Hres). exact Hres.
Defined.

Lemma uploads_go_to_a_notebooks_dir_witness :
  endswith "s3://bucket/notebooks" "/notebooks" = true.
Proof.
  destruct (uploads_go_to_a_notebooks_dir ∅ (λ _, true) id dirname basename
              splitext "/tmp" "20180802_162438" (λ _, 0)
              (notebook_args publish_notebook.publish_on_s3)
              (notebook_run publish_notebook.publish_on_s3).1.1
              (notebook_run publish_notebook.publish_on_s3).2
              "am" "./Task768.v1.20180802_162438.html"
              "s3://bucket/notebooks/Task768.v1.20180802_162438.html")
    as (_ & _ & _ & s3 & Hs3 & _ & Hends & _);
    [vm_compute; reflexivity|vm_compute; repeat constructor|].
  injection Hs3 as <-. exact Hends.
Defined.

Lemma publish_locally_needs_its_directory_witness :
  ∃ msg,
    (notebook_run publish_notebook.publish_locally).1.1 =
    Raise (AssertionError msg).
Proof.
  destruct (publish_locally_needs_its_directory ∅ (λ _, true) id dirname
              basename splitext "/tmp" "20180802_162438" (λ _, 0)
              (notebook_args publish_notebook.publish_locally)
              (notebook_run publish_notebook.publish_locally).1.1
              (notebook_run publish_notebook.publish_locally).2)
    as (Hfail & _); [reflexivity|vm_compute; reflexivity|].
  exact (Hfail "nlp/notebooks/Task768.ipynb" eq_refl).
Defined.

End more_concrete_runs.
